(** * Damped-spring solver and animation driver of the photo gallery

    A shallow embedding of [utils/physics/Spring.js] and
    [utils/physics/runAnimation.js], and of the two components that use
    them, [components/PhotosContainer.js] and [components/PhotoGallery.js].

    JavaScript numbers are kept behind the interface [JSNumber], and the
    program is translated once, over that interface.  Two instances are used:
    - [float_JSNumber]: IEEE-754 binary64 values, which is what the program
      computes with.  [Math.pow], [Math.cos] and [Math.sin] are
      implementation-approximated in ECMAScript, so they are arguments of the
      instance.
    - [R_JSNumber]: the real numbers, the idealised arithmetic in which the
      closed-form solution of [m x'' + c x' + k x = 0] is stated.

    The wall clock ([Date.now()], [new Date().getTime()]) is an explicit
    argument [now] of every method that reads it. *)

From Stdlib Require Import Bool List Arith ZArith Lia.
From Stdlib Require Import Floats.
From Stdlib Require Import Reals Lra.
Import ListNotations.

Set Implicit Arguments.

(** ** Numbers *)

Class JSNumber (N : Type) : Type := {
  lit_0 : N;                      (* 0 *)
  lit_2 : N;                      (* 2 *)
  lit_4 : N;                      (* 4 *)
  lit_1000 : N;                   (* 1000.0 *)
  EPSILON : N;                    (* const EPSILON = 0.001 *)
  jadd : N -> N -> N;             (* a + b *)
  jsub : N -> N -> N;             (* a - b *)
  jmul : N -> N -> N;             (* a * b *)
  jdiv : N -> N -> N;             (* a / b *)
  jneg : N -> N;                  (* -a *)
  jlt : N -> N -> bool;           (* a < b *)
  jeq : N -> N -> bool;           (* a === b *)
  Math_sqrt : N -> N;             (* Math.sqrt(a) *)
  Math_pow_E : N -> N;            (* Math.pow(Math.E, a) *)
  Math_cos : N -> N;              (* Math.cos(a) *)
  Math_sin : N -> N               (* Math.sin(a) *)
}.

Declare Scope js_scope.
Delimit Scope js_scope with js.
Notation "a + b" := (jadd a b) : js_scope.
Notation "a - b" := (jsub a b) : js_scope.
Notation "a * b" := (jmul a b) : js_scope.
Notation "a / b" := (jdiv a b) : js_scope.
Notation "- a" := (jneg a) : js_scope.
Notation "a <? b" := (jlt a b) : js_scope.
Notation "a >? b" := (jlt b a) : js_scope.
Notation "a === b" := (jeq a b) (at level 70, no associativity) : js_scope.

(** ** The spring *)

Section Spring.

Context {N : Type} {num : JSNumber N}.
Local Open Scope js_scope.

(** ToBoolean of a number: only [0], [-0] and [NaN] are falsy. *)
Definition truthy (a : N) : bool := negb (a === lit_0) && (a === a).

(** [if (!t) t = new Date().getTime();] where an omitted [t] is [None]:
    [undefined] is falsy as well. *)
Definition time_or_now (now : N) (t : option N) : N :=
  match t with
  | Some t' => if truthy t' then t' else now
  | None => now
  end.

Definition almostEqual (a b : N) : bool :=
  (a >? b - EPSILON) && (a <? b + EPSILON).

Definition almostZero (a : N) : bool := almostEqual a lit_0.

(** The object [{x: t => ..., dx: t => ...}] returned by [_solve]. *)
Record Solution : Type := mkSolution {
  sol_x : N -> N;
  sol_dx : N -> N
}.

Record Spring : Type := mkSpring {
  _m : N;
  _k : N;
  _c : N;
  _solution : option Solution;    (* [None] is [null] *)
  _endValue : N;
  _startTime : N
}.

(** [new Spring(springConstant, damping, mass)]; the default [mass = 1] is
    supplied by the caller. *)
Definition constructor (springConstant damping mass : N) : Spring :=
  {| _m := mass;
     _k := springConstant;
     _c := damping;
     _solution := None;
     _endValue := lit_0;
     _startTime := lit_0 |}.

Definition _solve (s : Spring) (initial velocity : N) : Solution :=
  let c := _c s in
  let m := _m s in
  let k := _k s in
  let cmk := c * c - lit_4 * m * k in
  if cmk === lit_0 then
    let r := - c / (lit_2 * m) in
    let c1 := initial in
    let c2 := velocity / (r * initial) in
    {| sol_x := fun t => (c1 + c2 * t) * Math_pow_E (r * t);
       sol_dx := fun t =>
         let pow := Math_pow_E (r * t) in
         r * (c1 + c2 * t) * pow + c2 * pow |}
  else if cmk >? lit_0 then
    let r1 := (- c - Math_sqrt cmk) / (lit_2 * m) in
    let r2 := (- c + Math_sqrt cmk) / (lit_2 * m) in
    let c2 := (velocity - r1 * initial) / (r2 - r1) in
    let c1 := initial - c2 in
    {| sol_x := fun t =>
         c1 * Math_pow_E (r1 * t) + c2 * Math_pow_E (r2 * t);
       sol_dx := fun t =>
         c1 * r1 * Math_pow_E (r1 * t) + c2 * r2 * Math_pow_E (r2 * t) |}
  else
    let w := Math_sqrt (lit_4 * m * k - c * c) / (lit_2 * m) in
    let r := - ((c / lit_2) * m) in
    let c1 := initial in
    let c2 := (velocity - r * initial) / w in
    {| sol_x := fun t =>
         Math_pow_E (r * t) * (c1 * Math_cos (w * t) + c2 * Math_sin (w * t));
       sol_dx := fun t =>
         let power := Math_pow_E (r * t) in
         let cos := Math_cos (w * t) in
         let sin := Math_sin (w * t) in
         power * (c2 * w * cos - c1 * w * sin)
         + r * power * (c2 * sin + c1 * cos) |}.

(** [(new Date().getTime() - this._startTime) / 1000.0] *)
Definition sinceStart (s : Spring) (t : N) : N :=
  (t - _startTime s) / lit_1000.

Definition x (s : Spring) (now : N) (dt : option N) : N :=
  let dt := match dt with None => sinceStart s now | Some d => d end in
  match _solution s with
  | Some sol => _endValue s + sol_x sol dt
  | None => lit_0
  end.

Definition endValue (s : Spring) : N := _endValue s.

Definition dx (s : Spring) (now : N) (dt : option N) : N :=
  let dt := match dt with None => sinceStart s now | Some d => d end in
  match _solution s with
  | Some sol => sol_dx sol dt
  | None => lit_0
  end.

Definition velocity (s : Spring) (now : N) : N :=
  dx s now (Some (sinceStart s now)).

(** [setEnd(endValue, velocity = 0, t)].  An omitted [velocity] or [t] is
    [None]. *)
Definition setEnd (s : Spring) (now : N)
    (endValue : N) (velocity : option N) (t : option N) : Spring :=
  let velocity := match velocity with None => lit_0 | Some v => v end in
  let position := _endValue s in
  let t := time_or_now now t in
  if (endValue === _endValue s) && almostZero velocity then s
  else
    let '(position, velocity) :=
      match _solution s with
      | Some sol =>
          let velocity :=
            if almostZero velocity then sol_dx sol (sinceStart s t)
            else velocity in
          let position := sol_x sol (sinceStart s t) in
          let velocity := if almostZero velocity then lit_0 else velocity in
          let position := if almostZero position then lit_0 else position in
          (position + _endValue s, velocity)
      | None => (position, velocity)
      end in
    if match _solution s with Some _ => true | None => false end
       && almostZero (position - endValue)
       && almostZero velocity
    then s
    else
      let s1 := {| _m := _m s; _k := _k s; _c := _c s;
                   _solution := _solution s;
                   _endValue := endValue;
                   _startTime := _startTime s |} in
      {| _m := _m s; _k := _k s; _c := _c s;
         _solution := Some (_solve s1 (position - _endValue s1) velocity);
         _endValue := endValue;
         _startTime := t |}.

Definition snap (s : Spring) (now : N) (endValue : N) : Spring :=
  {| _m := _m s; _k := _k s; _c := _c s;
     _solution := Some {| sol_x := fun _ => lit_0; sol_dx := fun _ => lit_0 |};
     _endValue := endValue;
     _startTime := now |}.

(** [done(t)]: the argument is defaulted and then not read again; [x()] and
    [dx()] are called without an argument. *)
Definition done (s : Spring) (now : N) (t : option N) : bool :=
  let t := time_or_now now t in
  almostEqual (x s now None) (_endValue s) && almostZero (dx s now None).

Definition reconfigure (s : Spring) (now : N)
    (mass springConstant damping : N) : Spring :=
  let s1 := {| _m := mass; _k := springConstant; _c := damping;
               _solution := _solution s;
               _endValue := _endValue s;
               _startTime := _startTime s |} in
  if done s1 now None then s1
  else
    {| _m := mass; _k := springConstant; _c := damping;
       _solution :=
         Some (_solve s1 (x s1 now None - _endValue s1) (dx s1 now None));
       _endValue := _endValue s;
       _startTime := now |}.

Definition springConstant (s : Spring) : N := _k s.

Definition damping (s : Spring) : N := _c s.

End Spring.

Arguments Solution N : clear implicits.
Arguments Spring N : clear implicits.

(** ** The two number instances *)

Definition Rltb (a b : R) : bool := if Rlt_dec a b then true else false.
Definition Reqb (a b : R) : bool := if Req_dec_T a b then true else false.

#[export] Instance R_JSNumber : JSNumber R := {|
  lit_0 := 0%R;
  lit_2 := 2%R;
  lit_4 := 4%R;
  lit_1000 := 1000%R;
  EPSILON := (1 / 1000)%R;        (* 0.001 *)
  jadd := Rplus;
  jsub := Rminus;
  jmul := Rmult;
  jdiv := Rdiv;
  jneg := Ropp;
  jlt := Rltb;
  jeq := Reqb;
  Math_sqrt := sqrt;
  Math_pow_E := exp;
  Math_cos := cos;
  Math_sin := sin
|}.

(** The implementation-approximated functions of the host's [Math] object. *)
Record MathImpl : Type := mkMathImpl {
  impl_pow_E : float -> float;
  impl_cos : float -> float;
  impl_sin : float -> float
}.

#[warnings="-inexact-float"]
Definition float_JSNumber (host : MathImpl) : JSNumber float := {|
  lit_0 := 0%float;
  lit_2 := 2%float;
  lit_4 := 4%float;
  lit_1000 := 1000%float;
  EPSILON := 0.001%float;
  jadd := PrimFloat.add;
  jsub := PrimFloat.sub;
  jmul := PrimFloat.mul;
  jdiv := PrimFloat.div;
  jneg := PrimFloat.opp;
  jlt := PrimFloat.ltb;
  jeq := PrimFloat.eqb;
  Math_sqrt := PrimFloat.sqrt;
  Math_pow_E := impl_pow_E host;
  Math_cos := impl_cos host;
  Math_sin := impl_sin host
|}.

(** ** The animation driver *)

Inductive Call : Type := OnFrame | OnFinish.

Definition Call_eqb (a b : Call) : bool :=
  match a, b with
  | OnFrame, OnFrame | OnFinish, OnFinish => true
  | _, _ => false
  end.

(** How often a callback was invoked. *)
Definition invocations (c : Call) (l : list Call) : nat :=
  length (filter (Call_eqb c) l).

(** [{id: 0, cancelled: false}] *)
Record Handle : Type := mkHandle {
  id : nat;
  cancelled : bool
}.

Section Animation.

(** State of the physics model object. *)
Variable M : Type.

(** The three functions [runAnimation] is given.  A callback may change the
    model, and it may call [cancel()] of the handle; the [bool] tells whether
    it did. *)
Record Client : Type := mkClient {
  model_done : M -> bool * M;               (* physicsModel.done() *)
  onFrame : M -> M * bool;
  onFinish : option (M -> M * bool)
}.

Record World : Type := mkWorld {
  handle : Handle;
  frames : list nat;      (* pending requestAnimationFrame requests, by id *)
  last_id : nat;          (* the last request id the host handed out *)
  model : M;
  calls : list Call       (* callback invocations so far, oldest first *)
}.

Definition set_handle (h : Handle) (w : World) : World :=
  {| handle := h; frames := frames w; last_id := last_id w;
     model := model w; calls := calls w |}.

Definition set_model (m : M) (w : World) : World :=
  {| handle := handle w; frames := frames w; last_id := last_id w;
     model := m; calls := calls w |}.

(** The host hands out request ids that are never zero. *)
Definition requestAnimationFrame (w : World) : nat * World :=
  let i := S (last_id w) in
  (i, {| handle := handle w; frames := frames w ++ [i]; last_id := i;
         model := model w; calls := calls w |}).

Definition cancelAnimationFrame (i : nat) (w : World) : World :=
  {| handle := handle w;
     frames := filter (fun j => negb (Nat.eqb i j)) (frames w);
     last_id := last_id w; model := model w; calls := calls w |}.

Definition cancel (w : World) : World :=
  let w1 := if negb (Nat.eqb (id (handle w)) 0)
            then cancelAnimationFrame (id (handle w)) w else w in
  set_handle {| id := id (handle w1); cancelled := true |} w1.

(** Invoking a callback: it is recorded, the model takes its new state, and
    a [cancel()] the callback made takes effect. *)
Definition invoke (tag : Call) (f : M -> M * bool) (w : World) : World :=
  let '(m, cancels) := f (model w) in
  let w1 := {| handle := handle w; frames := frames w; last_id := last_id w;
               model := m; calls := calls w ++ [tag] |} in
  if cancels then cancel w1 else w1.

Variable cl : Client.

Definition processFrame (w : World) : World :=
  if cancelled (handle w) then w
  else
    let w1 := invoke OnFrame (onFrame cl) w in
    let '(d, m) := model_done cl (model w1) in
    let w2 := set_model m w1 in
    if negb d && negb (cancelled (handle w2)) then
      let '(i, w3) := requestAnimationFrame w2 in
      set_handle {| id := i; cancelled := cancelled (handle w3) |} w3
    else
      match onFinish cl with
      | Some f => invoke OnFinish f w2
      | None => w2
      end.

(** [runAnimation(physicsModel, onFrame, onFinish)]; [n] is the last request
    id the host handed out before the call.  The returned world stands for
    the returned object [{cancel, model}]. *)
Definition runAnimation (m : M) (n : nat) : World :=
  processFrame {| handle := {| id := 0; cancelled := false |};
                  frames := []; last_id := n; model := m; calls := [] |}.

(** What happens after [runAnimation] has returned. *)
Inductive Event : Type :=
  | Frame                 (* the host runs the animation frame callbacks *)
  | Cancel                (* the owner calls [cancel()] of the handle *)
  | Other (f : M -> M).   (* other code changes the model, or time passes *)

(** The host runs the requests that were pending when the frame began.  A
    request leaves the list when its callback is taken to run, and one that
    was withdrawn meanwhile is skipped. *)
Fixpoint runFrames (ids : list nat) (w : World) : World :=
  match ids with
  | [] => w
  | i :: rest =>
      runFrames rest
        (if existsb (Nat.eqb i) (frames w)
         then processFrame (cancelAnimationFrame i w)
         else w)
  end.

Definition step (w : World) (e : Event) : World :=
  match e with
  | Frame => runFrames (frames w) w
  | Cancel => cancel w
  | Other f => set_model (f (model w)) w
  end.

Definition run (es : list Event) (w : World) : World := fold_left step es w.

End Animation.

Arguments Frame {M}.
Arguments Cancel {M}.

(** ** Histories of a spring *)

Section History.

Context {N : Type} {num : JSNumber N}.

(** A call of one of the methods that change the spring, with the clock
    reading at the call. *)
Inductive Op : Type :=
  | OpSetEnd (now endValue : N) (velocity t : option N)
  | OpSnap (now endValue : N)
  | OpReconfigure (now mass springConstant damping : N).

Definition apply_op (s : Spring N) (op : Op) : Spring N :=
  match op with
  | OpSetEnd now e v t => setEnd s now e v t
  | OpSnap now e => snap s now e
  | OpReconfigure now m k c => reconfigure s now m k c
  end.

Definition run_ops (ops : list Op) (s : Spring N) : Spring N :=
  fold_left apply_op ops s.

(** While there is no solution, the end value is the [0] of the
    constructor. *)
Definition null_at_zero (s : Spring N) : Prop :=
  _solution s = None -> _endValue s = lit_0.

End History.

Arguments Op N : clear implicits.

(** ** Concrete inputs used below *)

(** A model that never settles, with callbacks that do nothing. *)
Definition restless_client : Client unit :=
  {| model_done := fun m => (false, m);
     onFrame := fun m => (m, false);
     onFinish := Some (fun m => (m, false)) |}.

(** A model that is settled from the start. *)
Definition settled_client : Client unit :=
  {| model_done := fun m => (true, m);
     onFrame := fun m => (m, false);
     onFinish := Some (fun m => (m, false)) |}.

(** The model counts the frames it has seen; [onFrame] calls [cancel()] from
    its second invocation on, when the caller holds the handle. *)
Definition self_cancelling_client : Client nat :=
  {| model_done := fun m => (false, m);
     onFrame := fun m => (S m, Nat.leb 1 m);
     onFinish := Some (fun m => (m, false)) |}.

(** A spring at the critical damping [c * c = 4 * m * k], in binary64:
    [new Spring(1, 2)]. *)
Definition critical_spring (host : MathImpl) : Spring float :=
  @constructor float (float_JSNumber host) 1%float 2%float 1%float.

Section RealInputs.

Local Open Scope R_scope.

(** [new Spring(1, 2)] sent from rest at [0] towards [1] at clock reading
    [1000]: [setEnd(1, undefined, 1000)]. *)
Definition released_spring : Spring R :=
  setEnd (constructor 1 2 1) 1000 1 None (Some 1000).

(** An underdamped spring of mass 2: [new Spring(230, 30, 2)]. *)
Definition heavy_spring : Spring R := constructor 230 30 2.

(** The spring of the carousel after it is mounted:
    [new Spring(230, 30)] and [snap(0)]. *)
Definition resting_carousel_spring : Spring R :=
  snap (constructor 230 30 1) 0 0.

(** ** The underdamped solution in the words of the specification

    [x(t) = e^(rt) (c1 cos(wt) + c2 sin(wt))] with [r = -c/(2m)] and
    [w = sqrt(4mk - c^2)/(2m)]; these three follow the specification, not
    the program, and are there to be compared with [_solve]. *)
Definition spec_rate (s : Spring R) : R := - _c s / (2 * _m s).

Definition spec_frequency (s : Spring R) : R :=
  sqrt (4 * _m s * _k s - _c s * _c s) / (2 * _m s).

Definition spec_underdamped (s : Spring R) (c1 c2 t : R) : R :=
  exp (spec_rate s * t)
  * (c1 * cos (spec_frequency s * t) + c2 * sin (spec_frequency s * t)).

End RealInputs.

(** ** Notions for the long run of a spring *)

Section Rest.

Local Open Scope R_scope.

(** From some time on, position (relative to the end value) and velocity
    stay within [EPSILON] of zero. *)
Definition settling (sol : Solution R) : Prop :=
  exists T, forall t, T <= t ->
    Rabs (sol_x sol t) < 1 / 1000 /\ Rabs (sol_dx sol t) < 1 / 1000.

(** Positive mass, stiffness and damping, away from the critical damping. *)
Definition well_damped (m k c : R) : Prop :=
  0 < m /\ 0 < k /\ 0 < c /\ c * c <> 4 * m * k.

Definition well_damped_op (op : Op R) : Prop :=
  match op with
  | OpReconfigure _ m k c => well_damped m k c
  | _ => True
  end.

Definition comes_to_rest (s : Spring R) : Prop :=
  well_damped (_m s) (_k s) (_c s)
  /\ match _solution s with
     | Some sol => settling sol
     | None => _endValue s = 0
     end.

End Rest.

(** ** Notions for the frames of an animation *)

Section Frames.

Variable M : Type.

(** At most the request stored in the handle is pending, and only while the
    animation is neither cancelled nor finished. *)
Definition tidy (w : World M) : Prop :=
  (frames w = []
   \/ (frames w = [id (handle w)]
       /\ id (handle w) <> 0
       /\ cancelled (handle w) = false
       /\ invocations OnFinish (calls w) = 0))
  /\ invocations OnFinish (calls w) <= 1.

Variable cl : Client M.

(** [done()] as a frame sees it, after its [onFrame] has run. *)
Definition done_in_frame (m : M) : bool :=
  fst (model_done cl (fst (onFrame cl m))).

(** The model as one frame leaves it. *)
Definition model_after_frame (m : M) : M :=
  snd (model_done cl (fst (onFrame cl m))).

(** [done()] answers [false] in the first [j] frames and [true] in the
    next one. *)
Fixpoint settles_in (j : nat) (m : M) : bool :=
  match j with
  | 0 => done_in_frame m
  | S j' => negb (done_in_frame m) && settles_in j' (model_after_frame m)
  end.

End Frames.

(** A model that counts down by one in every [onFrame] and is done at
    zero. *)
Definition countdown_client : Client nat :=
  {| model_done := fun m => (Nat.eqb m 0, m);
     onFrame := fun m => (Nat.pred m, false);
     onFinish := Some (fun m => (m, false)) |}.

(** ** The carousel: gestures, target selection and rendering

    [components/PhotosContainer.js], over the real numbers.  The component
    reads [breakpoint.viewport.width] and the clock from its environment,
    and [TouchUtils] hands the gestures to the three touch functions; the
    readings are fields of the state, and the gestures are events. *)

Module PhotosContainer.

Section OverReals.

Local Open Scope R_scope.

(** [Math.floor], [Math.ceil], [Math.abs], [Math.max] and [Math.min] on the
    reals. *)
Definition Math_floor (a : R) : R := IZR (Zfloor a).
Definition Math_ceil (a : R) : R := IZR (Zceil a).
Definition Math_abs (a : R) : R := Rabs a.
Definition Math_max (a b : R) : R := Rmax a b.
Definition Math_min (a b : R) : R := Rmin a b.

Record Props : Type := mkProps {
  photos : nat;                        (* photos.length *)
  selected : R;
  overshootDamping : R;
  springConfig_damping : R;
  springConfig_springConstant : R;
  animateIndividualPhotos : bool;
  swipeVelocityThreshold : R;          (* px per second *)
  indicateBoundaryVelocity : R         (* px per second *)
}.

(** [static defaultProps], for an album of [n] photos. *)
Definition defaultProps (n : nat) : Props :=
  {| photos := n;
     selected := 0;
     overshootDamping := 3 / 4;        (* 0.75 *)
     springConfig_damping := 30;
     springConfig_springConstant := 230;
     animateIndividualPhotos := true;
     swipeVelocityThreshold := 500;
     indicateBoundaryVelocity := 2000 |}.

(** The fields of the component, what it has written to the DOM, what it
    has told its owner, and the two readings of its environment. *)
Record Container : Type := mkContainer {
  spring : Spring R;
  offset : R;
  startOffset : R;             (* not read before [onTouchStart] writes it *)
  minOffset : R;
  maxOffset : R;
  photoNodes : nat;            (* this.photoNodes.length *)
  animation : bool;            (* whether [this.animation] is set *)
  transform : R;               (* node.style.transform: translateX(..px) *)
  opacities : list (nat * R);  (* writes of style.opacity, latest first *)
  changes : list R;            (* calls of props.onChange, oldest first *)
  clock : R;                   (* Date.now() *)
  viewport_width : R           (* breakpoint.viewport.width *)
}.

Definition set_spring (s : Spring R) (c : Container) : Container :=
  {| spring := s; offset := offset c; startOffset := startOffset c;
     minOffset := minOffset c; maxOffset := maxOffset c;
     photoNodes := photoNodes c; animation := animation c;
     transform := transform c; opacities := opacities c;
     changes := changes c; clock := clock c;
     viewport_width := viewport_width c |}.

Definition set_offset (o : R) (c : Container) : Container :=
  {| spring := spring c; offset := o; startOffset := startOffset c;
     minOffset := minOffset c; maxOffset := maxOffset c;
     photoNodes := photoNodes c; animation := animation c;
     transform := transform c; opacities := opacities c;
     changes := changes c; clock := clock c;
     viewport_width := viewport_width c |}.

Definition set_startOffset (o : R) (c : Container) : Container :=
  {| spring := spring c; offset := offset c; startOffset := o;
     minOffset := minOffset c; maxOffset := maxOffset c;
     photoNodes := photoNodes c; animation := animation c;
     transform := transform c; opacities := opacities c;
     changes := changes c; clock := clock c;
     viewport_width := viewport_width c |}.

Definition set_animation (b : bool) (c : Container) : Container :=
  {| spring := spring c; offset := offset c; startOffset := startOffset c;
     minOffset := minOffset c; maxOffset := maxOffset c;
     photoNodes := photoNodes c; animation := b;
     transform := transform c; opacities := opacities c;
     changes := changes c; clock := clock c;
     viewport_width := viewport_width c |}.

Definition set_transform (o : R) (c : Container) : Container :=
  {| spring := spring c; offset := offset c; startOffset := startOffset c;
     minOffset := minOffset c; maxOffset := maxOffset c;
     photoNodes := photoNodes c; animation := animation c;
     transform := o; opacities := opacities c;
     changes := changes c; clock := clock c;
     viewport_width := viewport_width c |}.

Definition write_opacity (j : nat) (o : R) (c : Container) : Container :=
  {| spring := spring c; offset := offset c; startOffset := startOffset c;
     minOffset := minOffset c; maxOffset := maxOffset c;
     photoNodes := photoNodes c; animation := animation c;
     transform := transform c; opacities := (j, o) :: opacities c;
     changes := changes c; clock := clock c;
     viewport_width := viewport_width c |}.

Definition call_onChange (o : R) (c : Container) : Container :=
  {| spring := spring c; offset := offset c; startOffset := startOffset c;
     minOffset := minOffset c; maxOffset := maxOffset c;
     photoNodes := photoNodes c; animation := animation c;
     transform := transform c; opacities := opacities c;
     changes := changes c ++ [o]; clock := clock c;
     viewport_width := viewport_width c |}.

Definition set_clock (t : R) (c : Container) : Container :=
  {| spring := spring c; offset := offset c; startOffset := startOffset c;
     minOffset := minOffset c; maxOffset := maxOffset c;
     photoNodes := photoNodes c; animation := animation c;
     transform := transform c; opacities := opacities c;
     changes := changes c; clock := t;
     viewport_width := viewport_width c |}.

Definition set_viewport_width (width : R) (c : Container) : Container :=
  {| spring := spring c; offset := offset c; startOffset := startOffset c;
     minOffset := minOffset c; maxOffset := maxOffset c;
     photoNodes := photoNodes c; animation := animation c;
     transform := transform c; opacities := opacities c;
     changes := changes c; clock := clock c;
     viewport_width := width |}.

Variable props : Props.

Definition setup (c : Container) : Container :=
  {| spring := spring c; offset := offset c; startOffset := startOffset c;
     minOffset := 0;
     maxOffset := (INR (photos props) - 1) * viewport_width c;
     photoNodes := photos props; animation := animation c;
     transform := transform c; opacities := opacities c;
     changes := changes c; clock := clock c;
     viewport_width := viewport_width c |}.

(** [this.photoNodes[i]]: the node, when [i] is one of [0 .. length - 1]. *)
Definition node_at (i : R) (c : Container) : option nat :=
  if Reqb i (IZR (Zfloor i))
     && (0 <=? Zfloor i)%Z && (Zfloor i <? Z.of_nat (photoNodes c))%Z
  then Some (Z.to_nat (Zfloor i))
  else None.

(** The body of the [for] loop of [updateContainer]. *)
Definition fade_photo (i : R) (c : Container) : Container :=
  match node_at i c with
  | None => c                                        (* continue *)
  | Some photoNode =>
      let progress :=
        (viewport_width c * i - offset c) / viewport_width c in
      let maxOpacity := 1 in
      let minOpacity := 0 in
      let opacity :=
        (1 - Math_abs progress) * (maxOpacity - minOpacity) + minOpacity in
      write_opacity photoNode opacity c
  end.

(** [for (let i = startIndex; i < startIndex + 2; i++)] *)
Fixpoint fade_loop (fuel : nat) (i bound : R) (c : Container) : Container :=
  match fuel with
  | 0 => c
  | S fuel' =>
      if Rltb i bound then fade_loop fuel' (i + 1) bound (fade_photo i c)
      else c
  end.

(** The loop leaves at its third test; [fade_loop_exits] shows that more
    fuel changes nothing. *)
Definition updateContainer (c : Container) : Container :=
  let c1 := set_transform (- offset c) c in
  if animateIndividualPhotos props then
    let startIndex := Math_floor (offset c1 / viewport_width c1) in
    fade_loop 3 startIndex (startIndex + 2) c1
  else c1.

(** The function given to [TouchUtils.decorateTouchMove]. *)
Definition onTouchMove (delta_x : R) (c : Container) : Container :=
  let dx :=
    if Rltb (startOffset c - delta_x) (minOffset c) then
      let overshoot := minOffset c - startOffset c - delta_x in
      delta_x + overshoot * overshootDamping props
    else if Rltb (maxOffset c) (startOffset c - delta_x) then
      let overshoot := maxOffset c - startOffset c - delta_x in
      delta_x + overshoot * overshootDamping props
    else delta_x in
  updateContainer (set_offset (startOffset c - dx) c).

(** What [runAnimation] is given in [update]: the spring as the model,
    [onFrame] and [onFinish]. *)
Definition animation_client : Client Container :=
  {| model_done := fun c => (done (spring c) (clock c) None, c);
     onFrame := fun c =>
       (updateContainer (set_offset (x (spring c) (clock c) None) c), false);
     onFinish := Some (fun c => (set_animation false c, false)) |}.

(** [!velocity] for an argument that may be omitted. *)
Definition falsy_arg (a : option R) : bool :=
  match a with
  | None => true
  | Some v => negb (truthy v)
  end.

(** [runAnimation] called while the page lives on: the host keeps its
    pending requests and its counter, and the new handle takes the place of
    the one [this.animation] held. *)
Definition start_animation (w : World Container) : World Container :=
  processFrame animation_client
    {| handle := {| id := 0; cancelled := false |}; frames := frames w;
       last_id := last_id w; model := model w; calls := calls w |}.

(** [update(overrideSelected, velocity)]. *)
Definition update (overrideSelected velocity : option R)
    (w : World Container) : World Container :=
  let c := model w in
  let actualCurrent :=
    match overrideSelected with Some o => o | None => selected props end in
  let offset := actualCurrent * viewport_width c in
  let dontInterrupt :=
    Reqb (endValue (spring c)) offset && falsy_arg velocity in
  if dontInterrupt then w
  else
    let c1 := set_spring (setEnd (spring c) (clock c) offset velocity None) c in
    let w1 := if animation c1 then cancel (set_model c1 w)
              else set_model c1 w in
    let w2 := start_animation w1 in
    let w3 := set_model (set_animation true (model w2)) w2 in
    match overrideSelected with
    | Some o =>
        if negb (Reqb o (selected props))
        then set_model (call_onChange o (model w3)) w3
        else w3
    | None => w3
    end.

(** The function given to [TouchUtils.decorateTouchStart]. *)
Definition onTouchStart (w : World Container) : World Container :=
  let w1 := if animation (model w) then cancel w else w in
  set_model (set_startOffset (offset (model w1)) (model w1)) w1.

(** The photo a swipe ends on: [nextPhotoIndex] of [onTouchEnd]. *)
Definition nextPhotoIndex (velocity_x : R) (c : Container) : R :=
  let roundingFn := if Rltb 0 velocity_x then Math_floor else Math_ceil in
  let offset :=
    Math_max (Math_min (offset c) (maxOffset c)) (minOffset c) in
  roundingFn (offset / viewport_width c).

(** The function given to [TouchUtils.decorateTouchEnd]. *)
Definition onTouchEnd (delta_x velocity_x : R)
    (w : World Container) : World Container :=
  let c := model w in
  let viewportWidth := viewport_width c in
  let c1 := set_spring (snap (spring c) (clock c) (offset c)) c in
  let w1 := set_model c1 w in
  let passedThreshold :=
    Rltb (viewportWidth / 2) (Math_abs delta_x)
    || Rltb (swipeVelocityThreshold props) (Math_abs velocity_x) in
  if passedThreshold then
    update (Some (nextPhotoIndex velocity_x c1)) (Some (- velocity_x)) w1
  else update None None w1.

Definition indicateLowerBoundary (w : World Container) : World Container :=
  update None
    (Some (velocity (spring (model w)) (clock (model w))
           - indicateBoundaryVelocity props)) w.

Definition indicateUpperBoundary (w : World Container) : World Container :=
  update None
    (Some (velocity (spring (model w)) (clock (model w))
           + indicateBoundaryVelocity props)) w.

(** [componentDidMount]: the world before has no animation and an idle
    host; [now] and [width] are the readings of the environment, [n] the
    last frame request id handed out. *)
Definition componentDidMount (now width : R) (n : nat) : World Container :=
  let s := snap (constructor (springConfig_springConstant props)
                   (springConfig_damping props) 1) now 0 in
  let c := {| spring := s; offset := 0; startOffset := 0;
              minOffset := 0; maxOffset := 0; photoNodes := 0;
              animation := false; transform := 0; opacities := [];
              changes := []; clock := now; viewport_width := width |} in
  update None None
    {| handle := {| id := 0; cancelled := false |}; frames := [];
       last_id := n; model := setup c; calls := [] |}.

(** [componentDidUpdate]. *)
Definition componentDidUpdate (w : World Container) : World Container :=
  update None None (set_model (setup (model w)) w).

(** [onWindowResize], after the viewport has taken the width [width]. *)
Definition onWindowResize (width : R) (w : World Container)
  : World Container :=
  let w1 := set_model (set_viewport_width width (model w)) w in
  update None None (set_model (setup (model w1)) w1).

(** What can happen to a mounted carousel. *)
Inductive Gesture : Type :=
  | TouchStart
  | TouchMove (delta_x : R)
  | TouchEnd (delta_x velocity_x : R)
  | Rerender                       (* componentDidUpdate *)
  | Resize (width : R)
  | IndicateLower
  | IndicateUpper
  | AnimationFrame                 (* the host runs the pending requests *)
  | Tick (t : R).                  (* the clock reads [t] from now on *)

Definition carousel_step (w : World Container) (g : Gesture)
  : World Container :=
  match g with
  | TouchStart => onTouchStart w
  | TouchMove delta_x => set_model (onTouchMove delta_x (model w)) w
  | TouchEnd delta_x velocity_x => onTouchEnd delta_x velocity_x w
  | Rerender => componentDidUpdate w
  | Resize width => onWindowResize width w
  | IndicateLower => indicateLowerBoundary w
  | IndicateUpper => indicateUpperBoundary w
  | AnimationFrame => step animation_client w Frame
  | Tick t => set_model (set_clock t (model w)) w
  end.

End OverReals.

(** A life of the carousel: each gesture with the props in force then. *)
Definition carousel_run (es : list (Props * Gesture))
    (w : World Container) : World Container :=
  fold_left (fun w e => carousel_step (fst e) w (snd e)) es w.

Section Notions.

Local Open Scope R_scope.

(** What the frames of the animation leave alone. *)
Definition setting (c : Container)
  : Spring R * R * R * R * nat * list R * R * R :=
  (spring c, startOffset c, minOffset c, maxOffset c, photoNodes c,
   changes c, clock c, viewport_width c).

(** [setup] has run for these props and this viewport. *)
Definition is_set_up (props : Props) (c : Container) : Prop :=
  minOffset c = 0
  /\ maxOffset c = (INR (photos props) - 1) * viewport_width c
  /\ photoNodes c = photos props.

(** Time passing and display frames, and nothing else. *)
Definition passive (e : Event Container) : Prop :=
  e = Frame \/ exists t, e = Other (set_clock t).

(** [startOffset] is written by the first [onTouchStart]; no move comes
    before it.  [started] tells whether a touch has started already. *)
Fixpoint touch_ordered (started : bool) (gs : list Gesture) : bool :=
  match gs with
  | [] => true
  | TouchStart :: rest => touch_ordered true rest
  | TouchMove _ :: rest => started && touch_ordered started rest
  | _ :: rest => touch_ordered started rest
  end.

(** The only request that can be pending is the one of the handle that
    [this.animation] holds. *)
Definition one_animation (w : World Container) : Prop :=
  frames w = []
  \/ (animation (model w) = true
      /\ frames w = [id (handle w)] /\ id (handle w) <> 0%nat).

(** The animation of spring [s] is under way, or it has ended with the
    carousel within [EPSILON] of the end value. *)
Definition animating_to (s : Spring R) (w : World Container) : Prop :=
  spring (model w) = s
  /\ transform (model w) = - offset (model w)
  /\ ((frames w = [id (handle w)] /\ id (handle w) <> 0%nat
       /\ cancelled (handle w) = false)
      \/ (frames w = [] /\ Rabs (offset (model w) - _endValue s) < 1 / 1000)).

(** The carousel comes to rest at [target]: from some time on, the first
    frame to run, whatever frames ran before it, requests no further frame
    and leaves the carousel within [EPSILON] of [target], written to the
    transform. *)
Definition rests_at (props : Props) (target : R) (w : World Container)
  : Prop :=
  exists T, forall (es : list (Event Container)) (t : R),
    Forall passive es ->
    T <= t ->
    frames (run (animation_client props)
              (es ++ [Other (set_clock t); Frame]) w) = []
    /\ Rabs (offset (model (run (animation_client props)
                              (es ++ [Other (set_clock t); Frame]) w))
             - target) < 1 / 1000
    /\ transform (model (run (animation_client props)
                           (es ++ [Other (set_clock t); Frame]) w))
       = - offset (model (run (animation_client props)
                            (es ++ [Other (set_clock t); Frame]) w)).

(** The spring has been snapped to [e], where the carousel stands and is
    shown. *)
Definition snapped_at (e : R) (w : World Container) : Prop :=
  (exists (s : Spring R) (now : R), spring (model w) = snap s now e)
  /\ offset (model w) = e
  /\ transform (model w) = - e
  /\ (frames w = [] \/ frames w = [id (handle w)]).



End Notions.

Section Inputs.

Local Open Scope R_scope.

(** A carousel of three photos in a viewport 320 px wide, at rest on the
    first photo at clock reading [0]: what [componentDidMount] leaves with
    the default props. *)
Definition resting_carousel : Container :=
  {| spring := resting_carousel_spring; offset := 0; startOffset := 0;
     minOffset := 0; maxOffset := 640; photoNodes := 3;
     animation := false; transform := 0; opacities := []; changes := [];
     clock := 0; viewport_width := 320 |}.

Definition resting_world : World Container :=
  {| handle := {| id := 0; cancelled := false |}; frames := [];
     last_id := 0; model := resting_carousel; calls := [] |}.

(** The same carousel, dragged 100 px towards the second photo. *)
Definition dragged_world : World Container :=
  set_model (set_transform (-100) (set_offset 100 resting_carousel))
    resting_world.

(** The props of the render that follows a swipe of
    [dragged_world] to the left. *)
Definition props_after_swipe : Props :=
  {| photos := 3;
     selected := nextPhotoIndex (-800) (model dragged_world);
     overshootDamping := 3 / 4;
     springConfig_damping := 30;
     springConfig_springConstant := 230;
     animateIndividualPhotos := true;
     swipeVelocityThreshold := 500;
     indicateBoundaryVelocity := 2000 |}.

End Inputs.

End PhotosContainer.

(** ** The gallery: selection and the timer of the controls

    [components/PhotoGallery.js].  Keys, mouse, timeouts and the carousel's
    [onChange] reach the component as events, one after the other, and a
    [setState] has taken effect when the next event arrives.
    [EnvUtils.hasTouch()] and the length of the album are readings of the
    environment. *)

Module PhotoGallery.

(** [this.refs.container.indicateLowerBoundary()] and
    [indicateUpperBoundary()]. *)
Inductive Boundary : Type := Lower | Upper.

Record Gallery : Type := mkGallery {
  state_selected : Z;                  (* this.state.selected *)
  state_hideControls : bool;           (* this.state.hideControls *)
  hideControlsTimerID : option nat;    (* [None] is [undefined] *)
  timers : list nat;                   (* the host's pending timeouts *)
  last_timer : nat;                    (* the last timer id handed out *)
  indicated : list Boundary            (* calls on the container *)
}.

Inductive GalleryEvent : Type :=
  | KeyLeft | KeyRight                 (* keymaster: 'left', 'right' *)
  | MouseMove | Click
  | TimerFires (i : nat)               (* the host runs timeout [i] *)
  | Change (selected : Z).             (* the container calls [onChange] *)

Section WithProps.

(** [this.props.album.photos.length] *)
Variable photos : nat.

(** [EnvUtils.hasTouch()] *)
Variable hasTouch : bool.

Definition setState_selected (z : Z) (g : Gallery) : Gallery :=
  {| state_selected := z; state_hideControls := state_hideControls g;
     hideControlsTimerID := hideControlsTimerID g; timers := timers g;
     last_timer := last_timer g; indicated := indicated g |}.

Definition setState_hideControls (b : bool) (g : Gallery) : Gallery :=
  {| state_selected := state_selected g; state_hideControls := b;
     hideControlsTimerID := hideControlsTimerID g; timers := timers g;
     last_timer := last_timer g; indicated := indicated g |}.

Definition indicate (b : Boundary) (g : Gallery) : Gallery :=
  {| state_selected := state_selected g;
     state_hideControls := state_hideControls g;
     hideControlsTimerID := hideControlsTimerID g; timers := timers g;
     last_timer := last_timer g; indicated := indicated g ++ [b] |}.

(** [clearInterval(id)]: timeouts and intervals share their ids. *)
Definition clearInterval (i : nat) (g : Gallery) : Gallery :=
  {| state_selected := state_selected g;
     state_hideControls := state_hideControls g;
     hideControlsTimerID := hideControlsTimerID g;
     timers := filter (fun j => negb (Nat.eqb i j)) (timers g);
     last_timer := last_timer g; indicated := indicated g |}.

Definition cancelHideControlsTimer (g : Gallery) : Gallery :=
  match hideControlsTimerID g with
  | Some i => if negb (Nat.eqb i 0) then clearInterval i g else g
  | None => g
  end.

(** [setTimeout(this.hideControls, 2000)] hands out an id that is not
    zero. *)
Definition startHideControlsTimer (g : Gallery) : Gallery :=
  let g1 := cancelHideControlsTimer g in
  if negb hasTouch then
    let i := S (last_timer g1) in
    {| state_selected := state_selected g1;
       state_hideControls := state_hideControls g1;
       hideControlsTimerID := Some i; timers := timers g1 ++ [i];
       last_timer := i; indicated := indicated g1 |}
  else g1.

Definition hideControls (g : Gallery) : Gallery :=
  setState_hideControls true g.

Definition showControls (g : Gallery) : Gallery :=
  startHideControlsTimer (setState_hideControls false g).

Definition hasNext (g : Gallery) : bool :=
  (state_selected g <? Z.of_nat photos - 1)%Z.

Definition hasPrev (g : Gallery) : bool := (0 <? state_selected g)%Z.

Definition onShowPrev (g : Gallery) : Gallery :=
  if hasPrev g then setState_selected (state_selected g - 1)%Z g
  else indicate Lower g.

Definition onShowNext (g : Gallery) : Gallery :=
  if hasNext g then setState_selected (state_selected g + 1)%Z g
  else indicate Upper g.

Definition onChange (selected : Z) (g : Gallery) : Gallery :=
  setState_selected selected g.

(** The initial [state] and [componentDidMount]; [n] is the last timer id
    the host handed out before. *)
Definition mount (n : nat) : Gallery :=
  startHideControlsTimer
    {| state_selected := 0; state_hideControls := false;
       hideControlsTimerID := None; timers := []; last_timer := n;
       indicated := [] |}.

Definition handle_event (g : Gallery) (e : GalleryEvent) : Gallery :=
  match e with
  | KeyLeft => onShowPrev g
  | KeyRight => onShowNext g
  | MouseMove => showControls g
  | Click => showControls g
  | TimerFires i =>
      if existsb (Nat.eqb i) (timers g)
      then hideControls (clearInterval i g)
      else g
  | Change z => onChange z g
  end.

Definition run_events (es : list GalleryEvent) (g : Gallery) : Gallery :=
  fold_left handle_event es g.

(** The selected index is one of the album. *)
Definition in_album (g : Gallery) : Prop :=
  (0 <= state_selected g <= Z.of_nat photos - 1)%Z.

Definition change_in_album (e : GalleryEvent) : Prop :=
  match e with
  | Change z => (0 <= z <= Z.of_nat photos - 1)%Z
  | _ => True
  end.

(** At most the timer stored in the component is pending. *)
Definition one_timer (g : Gallery) : Prop :=
  timers g = []
  \/ exists i, timers g = [i] /\ hideControlsTimerID g = Some i /\ i <> 0.

End WithProps.
End PhotoGallery.

(** * Properties of the spring, for every kind of number *)

Section SpringFacts.

Context {N : Type} {num : JSNumber N}.

(** [setEnd] either returns early and leaves the spring as it was, or it
    installs a solution, the end value and the start time together. *)
Lemma setEnd_cases (s : Spring N) (now e : N) (v t : option N) :
  setEnd s now e v t = s
  \/ (exists sol, _solution (setEnd s now e v t) = Some sol)
      /\ _endValue (setEnd s now e v t) = e.
Proof.
  unfold setEnd.
  destruct (jeq e (_endValue s) && almostZero _); [left; reflexivity|].
  destruct (_solution s) as [sol|]; cbv zeta.
  - match goal with |- context [if ?b then s else _] => destruct b end.
    + left; reflexivity.
    + right. split; [eexists; reflexivity | reflexivity].
  - simpl. right. split; [eexists; reflexivity | reflexivity].
Qed.

Lemma reconfigure_cases (s : Spring N) (now m k c : N) :
  (_solution (reconfigure s now m k c) = _solution s
   \/ exists sol, _solution (reconfigure s now m k c) = Some sol)
  /\ _endValue (reconfigure s now m k c) = _endValue s.
Proof.
  unfold reconfigure. destruct (done _ now None); simpl.
  - split; [left; reflexivity | reflexivity].
  - split; [right; eexists; reflexivity | reflexivity].
Qed.

Lemma constructor_null_at_zero (k c m : N) : null_at_zero (constructor k c m).
Proof. intros _. reflexivity. Qed.

Lemma apply_op_null_at_zero (s : Spring N) (op : Op N) :
  null_at_zero s -> null_at_zero (apply_op s op).
Proof.
  unfold null_at_zero. intros Hs.
  destruct op as [now e v t | now e | now m k c]; simpl.
  - destruct (setEnd_cases s now e v t) as [Heq | [[sol Hsol] _]].
    + rewrite Heq. exact Hs.
    + rewrite Hsol. discriminate.
  - discriminate.
  - destruct (reconfigure_cases s now m k c) as [[Hsame | [sol Hsol]] He].
    + rewrite Hsame, He. exact Hs.
    + rewrite Hsol. discriminate.
Qed.

Lemma run_ops_null_at_zero (ops : list (Op N)) :
  forall s : Spring N, null_at_zero s -> null_at_zero (run_ops ops s).
Proof.
  unfold run_ops. induction ops as [|op ops IH]; intros s Hs; simpl.
  - exact Hs.
  - apply IH. apply apply_op_null_at_zero. exact Hs.
Qed.

(** With a discriminant that is exactly zero, [_solve] takes the first
    branch: the result is the critically-damped formula, with [c1] the
    initial position and [c2 = velocity / (r * initial)]. *)
Lemma _solve_critical (s : Spring N) (initial velocity t : N) :
  jeq (jsub (jmul (_c s) (_c s)) (jmul (jmul lit_4 (_m s)) (_k s))) lit_0
  = true ->
  sol_x (_solve s initial velocity) t
  = jmul (jadd initial
            (jmul (jdiv velocity
                     (jmul (jdiv (jneg (_c s)) (jmul lit_2 (_m s))) initial))
               t))
      (Math_pow_E (jmul (jdiv (jneg (_c s)) (jmul lit_2 (_m s))) t)).
Proof. intros H. unfold _solve. rewrite H. reflexivity. Qed.

(** The argument of [done] has no part in the result. *)
Lemma done_ignores_argument (s : Spring N) (now : N) (t t' : option N) :
  done s now t = done s now t'.
Proof. reflexivity. Qed.

End SpringFacts.

(** * Properties of the animation driver *)

Section AnimationFacts.

Variable M : Type.
Variable cl : Client M.

Lemma cancel_calls (w : World M) : calls (cancel w) = calls w.
Proof. unfold cancel. destruct (negb _); reflexivity. Qed.

Lemma cancel_model (w : World M) : model (cancel w) = model w.
Proof. unfold cancel. destruct (negb _); reflexivity. Qed.

Lemma cancel_cancelled (w : World M) : cancelled (handle (cancel w)) = true.
Proof. reflexivity. Qed.

Lemma cancel_frames_nil (w : World M) :
  frames w = [] -> frames (cancel w) = [].
Proof.
  intros Hf. unfold cancel. destruct (negb _); simpl; rewrite Hf; reflexivity.
Qed.

Lemma invoke_calls (tag : Call) (f : M -> M * bool) (w : World M) :
  calls (invoke tag f w) = calls w ++ [tag].
Proof.
  unfold invoke. destruct (f (model w)) as [m [|]];
    [rewrite cancel_calls|]; reflexivity.
Qed.

Lemma invoke_frames_nil (tag : Call) (f : M -> M * bool) (w : World M) :
  frames w = [] -> frames (invoke tag f w) = [].
Proof.
  intros Hf. unfold invoke. destruct (f (model w)) as [m [|]].
  - apply cancel_frames_nil. exact Hf.
  - exact Hf.
Qed.

Lemma invoke_model (tag : Call) (f : M -> M * bool) (w : World M) :
  model (invoke tag f w) = fst (f (model w)).
Proof.
  unfold invoke. destruct (f (model w)) as [m [|]];
    [rewrite cancel_model|]; reflexivity.
Qed.

(** The check at the top of each frame. *)
Lemma processFrame_cancelled (w : World M) :
  cancelled (handle w) = true -> processFrame cl w = w.
Proof. intros Hc. unfold processFrame. rewrite Hc. reflexivity. Qed.

Lemma runFrames_cancelled (ids : list nat) :
  forall w : World M,
    cancelled (handle w) = true ->
    calls (runFrames cl ids w) = calls w
    /\ cancelled (handle (runFrames cl ids w)) = true.
Proof.
  induction ids as [|i rest IH]; intros w Hc; simpl.
  - split; [reflexivity | exact Hc].
  - destruct (existsb (Nat.eqb i) (frames w)).
    + rewrite processFrame_cancelled by exact Hc.
      destruct (IH (cancelAnimationFrame i w) Hc) as [H1 H2].
      split; [rewrite H1; reflexivity | exact H2].
    + apply IH. exact Hc.
Qed.

Lemma step_cancelled (w : World M) (e : Event M) :
  cancelled (handle w) = true ->
  calls (step cl w e) = calls w /\ cancelled (handle (step cl w e)) = true.
Proof.
  intros Hc. destruct e as [| |f]; simpl.
  - apply runFrames_cancelled. exact Hc.
  - split; [apply cancel_calls | reflexivity].
  - split; [reflexivity | exact Hc].
Qed.

Lemma run_cancelled (es : list (Event M)) :
  forall w : World M,
    cancelled (handle w) = true -> calls (run cl es w) = calls w.
Proof.
  unfold run. induction es as [|e es IH]; intros w Hc; simpl.
  - reflexivity.
  - destruct (step_cancelled w e Hc) as [H1 H2].
    rewrite (IH _ H2). exact H1.
Qed.

(** With no request pending, no callback runs any more. *)
Lemma run_idle (es : list (Event M)) :
  forall w : World M,
    frames w = [] ->
    calls (run cl es w) = calls w /\ frames (run cl es w) = [].
Proof.
  unfold run. induction es as [|e es IH]; intros w Hf; simpl.
  - split; [reflexivity | exact Hf].
  - assert (Hs : calls (step cl w e) = calls w /\ frames (step cl w e) = []).
    { destruct e as [| |f]; simpl.
      - rewrite Hf. simpl. split; [reflexivity | exact Hf].
      - split; [apply cancel_calls | apply cancel_frames_nil; exact Hf].
      - split; [reflexivity | exact Hf]. }
    destruct Hs as [H1 H2]. destruct (IH _ H2) as [H3 H4].
    rewrite H3, H1. split; [reflexivity | exact H4].
Qed.

(** The first frame runs inside [runAnimation], before a handle exists. *)
Lemma runAnimation_first_frame (m : M) (n : nat) :
  exists rest, calls (runAnimation cl m n) = OnFrame :: rest.
Proof.
  unfold runAnimation, processFrame. simpl.
  match goal with |- context [invoke OnFrame ?f ?w] =>
    set (w1 := invoke OnFrame f w);
    assert (H1 : calls w1 = [OnFrame])
      by (subst w1; rewrite invoke_calls; reflexivity)
  end.
  destruct (model_done cl (model w1)) as [d m'].
  assert (Hfin : exists rest,
             calls match onFinish cl with
                   | Some f => invoke OnFinish f (set_model m' w1)
                   | None => set_model m' w1
                   end = OnFrame :: rest).
  { destruct (onFinish cl) as [f|].
    - rewrite invoke_calls. simpl. rewrite H1. eexists; reflexivity.
    - simpl. rewrite H1. eexists; reflexivity. }
  destruct d; simpl; [exact Hfin|].
  destruct (cancelled (handle w1)); simpl; [exact Hfin|].
  rewrite H1. eexists; reflexivity.
Qed.

End AnimationFacts.

(** ** Cancellation *)

(** C2, as stated, fails: the handle is returned only after the first frame
    has run, so a [cancel()] that comes before every scheduled frame still
    finds [onFrame] invoked once. *)
Lemma cancel_before_scheduled_frame_counterexample :
  ~ (invocations OnFrame
       (calls (run restless_client [Cancel]
                 (runAnimation restless_client tt 0))) = 0
     /\ invocations OnFinish
          (calls (run restless_client [Cancel]
                    (runAnimation restless_client tt 0))) = 0).
Proof. vm_compute. intros [H _]. discriminate H. Qed.

(** C2, amended: [runAnimation] has invoked [onFrame] by the time it returns
    the handle, and once the owner has called [cancel()] between frames, the
    invocations stay what they were before that call, whatever happens
    next. *)
Theorem cancel_stops_callbacks (M : Type) (cl : Client M) (m : M) (n : nat)
    (before after : list (Event M)) :
  (exists rest, calls (runAnimation cl m n) = OnFrame :: rest)
  /\ calls (run cl (before ++ Cancel :: after) (runAnimation cl m n))
     = calls (run cl before (runAnimation cl m n)).
Proof.
  split.
  - apply runAnimation_first_frame.
  - unfold run. rewrite fold_left_app. simpl.
    fold (run cl before (runAnimation cl m n)).
    fold (run cl after (cancel (run cl before (runAnimation cl m n)))).
    rewrite run_cancelled by apply cancel_cancelled.
    apply cancel_calls.
Qed.

(** A [cancel()] made inside [onFrame] is another matter: the frame goes on
    to the [else] branch and invokes [onFinish]. *)
Remark cancel_inside_onFrame_runs_onFinish :
  calls (run self_cancelling_client [Frame]
           (runAnimation self_cancelling_client 0 0))
  = [OnFrame; OnFrame; OnFinish]
  /\ cancelled (handle (run self_cancelling_client [Frame]
                          (runAnimation self_cancelling_client 0 0))) = true.
Proof. split; reflexivity. Qed.

(** ** Completion *)

(** C7: when [done()] is true on the first frame, [runAnimation] invokes
    [onFrame] once and then [onFinish] once, leaves no frame request pending,
    and nothing that happens later adds an invocation. *)
Theorem runAnimation_done_on_first_frame (M : Type) (cl : Client M)
    (finish : M -> M * bool) (m : M) (n : nat) :
  fst (model_done cl (fst (onFrame cl m))) = true ->
  onFinish cl = Some finish ->
  invocations OnFrame (calls (runAnimation cl m n)) = 1
  /\ invocations OnFinish (calls (runAnimation cl m n)) = 1
  /\ frames (runAnimation cl m n) = []
  /\ forall later, calls (run cl later (runAnimation cl m n))
                   = calls (runAnimation cl m n).
Proof.
  intros Hdone Hfin.
  assert (Hw : calls (runAnimation cl m n) = [OnFrame; OnFinish]
               /\ frames (runAnimation cl m n) = []).
  { unfold runAnimation, processFrame. simpl.
    match goal with |- context [invoke OnFrame ?f ?w] =>
      set (w1 := invoke OnFrame f w);
      assert (H1 : calls w1 = [OnFrame])
        by (subst w1; rewrite invoke_calls; reflexivity);
      assert (H2 : frames w1 = [])
        by (subst w1; apply invoke_frames_nil; reflexivity);
      assert (H3 : model w1 = fst (onFrame cl m))
        by (subst w1; rewrite invoke_model; reflexivity)
    end.
    rewrite H3. destruct (model_done cl (fst (onFrame cl m))) as [d m'].
    simpl in Hdone. subst d. simpl. rewrite Hfin.
    split.
    - rewrite invoke_calls. simpl. rewrite H1. reflexivity.
    - apply invoke_frames_nil. exact H2. }
  destruct Hw as [Hc Hf].
  repeat split.
  - rewrite Hc. reflexivity.
  - rewrite Hc. reflexivity.
  - exact Hf.
  - intros later. apply run_idle. exact Hf.
Qed.

Lemma runAnimation_done_on_first_frame_witness :
  invocations OnFrame (calls (runAnimation settled_client tt 0)) = 1
  /\ invocations OnFinish (calls (runAnimation settled_client tt 0)) = 1
  /\ frames (runAnimation settled_client tt 0) = []
  /\ forall later, calls (run settled_client later
                            (runAnimation settled_client tt 0))
                   = calls (runAnimation settled_client tt 0).
Proof.
  apply (@runAnimation_done_on_first_frame unit settled_client
           (fun m => (m, false)) tt 0); reflexivity.
Defined.

(** * The spring over the real numbers *)

Section RealSpring.

Local Open Scope R_scope.

Lemma Rltb_true (a b : R) : a < b -> Rltb a b = true.
Proof.
  intros H. unfold Rltb.
  destruct (Rlt_dec a b); [reflexivity | contradiction].
Qed.

Lemma Rltb_false (a b : R) : b <= a -> Rltb a b = false.
Proof.
  intros H. unfold Rltb. destruct (Rlt_dec a b); [lra | reflexivity].
Qed.

Lemma Rltb_iff (a b : R) : Rltb a b = true <-> a < b.
Proof.
  unfold Rltb. destruct (Rlt_dec a b); split; intros H;
    try reflexivity; try assumption; try discriminate; contradiction.
Qed.

Lemma Reqb_true (a b : R) : a = b -> Reqb a b = true.
Proof.
  intros H. unfold Reqb.
  destruct (Req_dec_T a b); [reflexivity | contradiction].
Qed.

Lemma Reqb_false (a b : R) : a <> b -> Reqb a b = false.
Proof.
  intros H. unfold Reqb.
  destruct (Req_dec_T a b); [contradiction | reflexivity].
Qed.

(** [almostEqual] is the open interval of radius [0.001]. *)
Lemma almostEqual_iff (a b : R) :
  almostEqual a b = true <-> Rabs (a - b) < 1 / 1000.
Proof.
  unfold almostEqual. simpl. rewrite andb_true_iff, !Rltb_iff.
  split.
  - intros [H1 H2]. apply Rabs_def1; lra.
  - intros H. apply Rabs_def2 in H. lra.
Qed.

Lemma almostZero_iff (a : R) : almostZero a = true <-> Rabs a < 1 / 1000.
Proof.
  unfold almostZero. rewrite almostEqual_iff. simpl.
  replace (a - 0) with a by lra. reflexivity.
Qed.

Lemma almostZero_0 : almostZero 0 = true.
Proof. apply almostZero_iff. rewrite Rabs_R0. lra. Qed.

Lemma almostEqual_refl (a : R) : almostEqual a a = true.
Proof.
  apply almostEqual_iff. replace (a - a) with 0 by lra. rewrite Rabs_R0. lra.
Qed.

(** ** A fresh spring *)

(** C4, as stated, fails: [done()] of a fresh spring is [true]. *)
Lemma fresh_spring_done_counterexample :
  ~ (done (constructor 230 30 1) 0 None = false).
Proof.
  unfold done, x, dx. simpl.
  rewrite almostEqual_refl, almostZero_0. discriminate.
Qed.

(** C4, amended: before any [setEnd] or [snap], [x()] is [0], which is also
    the end value, [dx()] is [0], and [done()] is [true]: the spring rests at
    its end value. *)
Theorem fresh_spring_defaults (k c m now : R) (t : option R) :
  x (constructor k c m) now None = 0
  /\ x (constructor k c m) now None = _endValue (constructor k c m)
  /\ dx (constructor k c m) now None = 0
  /\ done (constructor k c m) now t = true.
Proof.
  repeat split.
  unfold done, x, dx. simpl.
  rewrite almostEqual_refl, almostZero_0. reflexivity.
Qed.

(** ** Snap *)

(** C8: right after [snap(v)], whatever the spring was doing, [x()] is [v]
    and [dx()] is [0] (equal, hence [===]); the start time is the time of
    the call, so no time has elapsed; and the motion in flight is gone:
    position and velocity stay [v] and [0] at every later time. *)
Theorem snap_exact (s : Spring R) (now v : R) :
  x (snap s now v) now None = v
  /\ dx (snap s now v) now None = 0
  /\ _startTime (snap s now v) = now
  /\ sinceStart (snap s now v) now = 0
  /\ forall later dt, x (snap s now v) later dt = v
                      /\ dx (snap s now v) later dt = 0.
Proof.
  unfold x, dx, sinceStart. simpl.
  repeat split; try (destruct dt); lra.
Qed.

(** ** Retargeting to the same end value *)

(** C9: [setEnd(v, 0)] with [v] the current end value returns at its first
    guard, so it leaves the whole spring, its solution and start time with
    it, as it was; twice in a row as well.  This holds for every spring, the
    settled ones among them, and whatever the clock says. *)
Theorem setEnd_same_target_twice (s : Spring R) (now1 now2 : R)
    (t1 t2 : option R) :
  setEnd s now1 (_endValue s) (Some 0) t1 = s
  /\ setEnd (setEnd s now1 (_endValue s) (Some 0) t1)
            now2 (_endValue s) (Some 0) t2 = s.
Proof.
  assert (H : forall now t, setEnd s now (_endValue s) (Some 0) t = s).
  { intros now t. unfold setEnd. simpl.
    rewrite Reqb_true by reflexivity.
    change (almostEqual 0 0) with (almostZero 0).
    rewrite almostZero_0. reflexivity. }
  rewrite !H. split; reflexivity.
Qed.

(** ** The spring without a solution *)

(** C10: after the constructor and any calls of [setEnd], [snap] and
    [reconfigure], a spring without a solution has end value [0], so the [0]
    that [x()] returns for it is [endValue + 0]. *)
Theorem null_solution_end_value_zero (k c m : R) (ops : list (Op R)) :
  _solution (run_ops ops (constructor k c m)) = None ->
  _endValue (run_ops ops (constructor k c m)) = 0
  /\ forall now dt,
       x (run_ops ops (constructor k c m)) now dt
       = _endValue (run_ops ops (constructor k c m)) + 0.
Proof.
  intros Hnone.
  assert (He : _endValue (run_ops ops (constructor k c m)) = 0).
  { assert (Hinv : null_at_zero (run_ops ops (constructor k c m))).
    { apply run_ops_null_at_zero. apply constructor_null_at_zero. }
    exact (Hinv Hnone). }
  split; [exact He|].
  intros now dt. unfold x. rewrite Hnone, He. simpl. lra.
Qed.

Lemma null_solution_end_value_zero_witness :
  _endValue (run_ops [OpSetEnd 10 0 None None; OpReconfigure 20 2 100 5]
               (constructor 230 30 1)) = 0
  /\ forall now dt,
       x (run_ops [OpSetEnd 10 0 None None; OpReconfigure 20 2 100 5]
            (constructor 230 30 1)) now dt
       = _endValue (run_ops [OpSetEnd 10 0 None None; OpReconfigure 20 2 100 5]
                      (constructor 230 30 1)) + 0.
Proof.
  apply (null_solution_end_value_zero 230 30 1
           [OpSetEnd 10 0 None None; OpReconfigure 20 2 100 5]).
  unfold run_ops. simpl.
  unfold setEnd. simpl.
  rewrite Reqb_true by reflexivity.
  change (almostEqual 0 0) with (almostZero 0).
  rewrite almostZero_0. simpl.
  unfold reconfigure, done, x, dx. simpl.
  rewrite almostEqual_refl.
  change (almostEqual 0 0) with (almostZero 0).
  rewrite almostZero_0. reflexivity.
Defined.

(** ** The argument of [done] *)

Lemma exp_minus_1000_small : 0 < exp (- (1000)) < 1 / 1000.
Proof.
  split; [apply exp_pos|].
  rewrite exp_Ropp.
  assert (H : 1 + 1000 < exp 1000) by (apply exp_ineq1; lra).
  unfold Rdiv. rewrite Rmult_1_l.
  apply Rinv_lt_contravar; [|lra].
  apply Rmult_lt_0_compat; lra.
Qed.

Lemma released_spring_eq :
  released_spring
  = {| _m := 1; _k := 1; _c := 2;
       _solution :=
         Some {| sol_x := fun t =>
                   (0 - 1 + 0 / (- (2) / (2 * 1) * (0 - 1)) * t)
                   * exp (- (2) / (2 * 1) * t);
                 sol_dx := fun t =>
                   - (2) / (2 * 1)
                   * (0 - 1 + 0 / (- (2) / (2 * 1) * (0 - 1)) * t)
                   * exp (- (2) / (2 * 1) * t)
                   + 0 / (- (2) / (2 * 1) * (0 - 1))
                     * exp (- (2) / (2 * 1) * t) |};
       _endValue := 1; _startTime := 1000 |}.
Proof.
  unfold released_spring, setEnd, time_or_now, truthy. simpl.
  rewrite (Reqb_false (a:=1000) (b:=0)) by lra.
  rewrite (Reqb_false (a:=1) (b:=0)) by lra. simpl.
  rewrite (Reqb_true (a:=1000) (b:=1000)) by lra.
  unfold _solve. simpl.
  rewrite Reqb_true by lra.
  reflexivity.
Qed.

(** C3 fails on the program: [done(1000)], asked when the clock reads
    [1001000], answers [true] for the released spring, although at the time
    [1000] that was passed the position is a whole unit away from the end
    value.  [done] answers for the clock, whatever its argument. *)
Theorem done_answers_for_the_clock :
  done released_spring 1001000 (Some 1000) = true
  /\ ~ (Rabs (x released_spring 1001000
                (Some (sinceStart released_spring 1000))
              - _endValue released_spring) < 1 / 1000
        /\ Rabs (dx released_spring 1001000
                   (Some (sinceStart released_spring 1000))) < 1 / 1000)
  /\ forall t, done released_spring 1001000 t
               = done released_spring 1001000 None.
Proof.
  split; [|split; [|intros t; reflexivity]];
    rewrite released_spring_eq; unfold done, x, dx, sinceStart; simpl;
    replace (0 / (- (2) / (2 * 1) * (0 - 1))) with 0 by lra.
  - replace (- (2) / (2 * 1) * ((1001000 - 1000) / 1000))
      with (- (1000)) by lra.
    pose proof exp_minus_1000_small as [Hpos Hsmall].
    apply andb_true_iff. split.
    + apply almostEqual_iff. apply Rabs_def1; lra.
    + apply almostZero_iff. apply Rabs_def1; lra.
  - replace (- (2) / (2 * 1) * ((1000 - 1000) / 1000)) with 0 by lra.
    rewrite exp_0.
    intros [H _]. apply Rabs_def2 in H. lra.
Qed.

(** ** The three regimes *)

Lemma _solve_underdamped (s : Spring R) (initial velocity t : R) :
  _c s * _c s < 4 * _m s * _k s ->
  sol_x (_solve s initial velocity) t
  = exp (- (_c s / 2 * _m s) * t)
    * (initial * cos (sqrt (4 * _m s * _k s - _c s * _c s) / (2 * _m s) * t)
       + (velocity - - (_c s / 2 * _m s) * initial)
         / (sqrt (4 * _m s * _k s - _c s * _c s) / (2 * _m s))
         * sin (sqrt (4 * _m s * _k s - _c s * _c s) / (2 * _m s) * t)).
Proof.
  intros H. unfold _solve. simpl.
  rewrite Reqb_false by lra. rewrite Rltb_false by lra.
  reflexivity.
Qed.

(** Away from the critical damping, the constants [c1] and [c2] that
    [_solve] computes meet the initial conditions. *)
Lemma _solve_initial_conditions (s : Spring R) (initial velocity : R) :
  0 < _m s ->
  _c s * _c s <> 4 * _m s * _k s ->
  sol_x (_solve s initial velocity) 0 = initial
  /\ sol_dx (_solve s initial velocity) 0 = velocity.
Proof.
  intros Hm Hne. unfold _solve. simpl.
  rewrite Reqb_false by lra.
  destruct (Rlt_dec 0 (_c s * _c s - 4 * _m s * _k s)) as [Hover | Hunder].
  - rewrite Rltb_true by exact Hover. simpl.
    rewrite !Rmult_0_r, exp_0.
    assert (Hsq : 0 < sqrt (_c s * _c s - 4 * _m s * _k s))
      by (apply sqrt_lt_R0; exact Hover).
    split; field; lra.
  - rewrite Rltb_false by lra. simpl.
    rewrite !Rmult_0_r, exp_0, cos_0, sin_0.
    assert (Hsq : 0 < sqrt (4 * _m s * _k s - _c s * _c s))
      by (apply sqrt_lt_R0; lra).
    split; field; lra.
Qed.

(** With the default mass 1 the underdamped solution is the one of the
    specification. *)
Lemma underdamped_unit_mass (k c initial velocity t : R) :
  c * c < 4 * 1 * k ->
  sol_x (_solve (constructor k c 1) initial velocity) t
  = spec_underdamped (constructor k c 1) initial
      ((velocity - spec_rate (constructor k c 1) * initial)
       / spec_frequency (constructor k c 1)) t.
Proof.
  intros H. rewrite _solve_underdamped by exact H.
  unfold spec_underdamped, spec_rate, spec_frequency. simpl.
  replace (- (c / 2 * 1)) with (- c / (2 * 1)) by lra.
  reflexivity.
Qed.

(** C5 fails on the program: for mass 2 the exponential rate of the
    underdamped solution is [-(c/2)*m = -30], where the specification has
    [-c/(2m) = -15/2]; and no choice of [c1] and [c2] makes the function of the
    specification the one that [_solve] returns. *)
Theorem underdamped_rate_at_mass_2 :
  (forall initial velocity t,
      sol_x (_solve heavy_spring initial velocity) t
      = exp (- (30) * t)
        * (initial * cos (spec_frequency heavy_spring * t)
           + (velocity - - (30) * initial) / spec_frequency heavy_spring
             * sin (spec_frequency heavy_spring * t)))
  /\ spec_rate heavy_spring = - (15 / 2)
  /\ ~ (exists c1 c2, forall t,
           sol_x (_solve heavy_spring 1 0) t
           = spec_underdamped heavy_spring c1 c2 t).
Proof.
  assert (Hcode : forall initial velocity t,
      sol_x (_solve heavy_spring initial velocity) t
      = exp (- (30) * t)
        * (initial * cos (spec_frequency heavy_spring * t)
           + (velocity - - (30) * initial) / spec_frequency heavy_spring
             * sin (spec_frequency heavy_spring * t))).
  { intros initial velocity t.
    rewrite _solve_underdamped by (simpl; lra).
    unfold spec_frequency. simpl.
    replace (- (30 / 2 * 2)) with (- (30)) by lra. reflexivity. }
  split; [exact Hcode|]. split; [unfold spec_rate; simpl; lra|].
  intros [c1 [c2 Heq]].
  assert (Hw : 0 < spec_frequency heavy_spring).
  { unfold spec_frequency. simpl.
    assert (0 < sqrt (4 * 2 * 230 - 30 * 30)) by (apply sqrt_lt_R0; lra).
    apply Rdiv_lt_0_compat; lra. }
  pose proof PI_RGT_0 as Hpi.
  pose proof (Heq 0) as H0.
  pose proof (Heq (2 * PI / spec_frequency heavy_spring)) as HT.
  rewrite Hcode in H0, HT. unfold spec_underdamped in H0, HT.
  rewrite !Rmult_0_r, exp_0, cos_0, sin_0 in H0.
  replace (spec_frequency heavy_spring
           * (2 * PI / spec_frequency heavy_spring))
    with (2 * PI) in HT by (field; lra).
  rewrite cos_2PI, sin_2PI in HT.
  assert (Hc1 : c1 = 1) by lra. subst c1.
  rewrite !Rmult_0_r, !Rmult_1_r, !Rplus_0_r, !Rmult_1_r in HT.
  apply exp_inv in HT.
  unfold spec_rate in HT. simpl in HT.
  assert (HTpos : 0 < 2 * PI / spec_frequency heavy_spring)
    by (apply Rdiv_lt_0_compat; lra).
  lra.
Qed.

(** ** Retargeting *)

(** [setEnd] rounds a position or velocity that is almost zero to zero; that
    moves it by less than [EPSILON]. *)
Lemma rounded_close (p : R) :
  Rabs ((if almostZero p then 0 else p) - p) < 1 / 1000.
Proof.
  destruct (almostZero p) eqn:Hp.
  - apply almostZero_iff in Hp. replace (0 - p) with (- p) by lra.
    rewrite Rabs_Ropp. exact Hp.
  - replace (p - p) with 0 by lra. rewrite Rabs_R0. lra.
Qed.

Lemma same_close (a : R) : Rabs (a - a) < 1 / 1000.
Proof. replace (a - a) with 0 by lra. rewrite Rabs_R0. lra. Qed.

(** One [setEnd], sampled at the time of the call just before and just
    after. *)
Lemma setEnd_continuous (s : Spring R) (now e : R) (v t : option R) :
  null_at_zero s ->
  0 < _m s ->
  _c s * _c s <> 4 * _m s * _k s ->
  Rabs (x (setEnd s now e v t) (time_or_now now t) None
        - x s (time_or_now now t) None) < 1 / 1000
  /\ (almostZero (match v with None => 0 | Some v' => v' end) = true ->
      Rabs (dx (setEnd s now e v t) (time_or_now now t) None
            - dx s (time_or_now now t) None) < 1 / 1000)
  /\ (almostZero (match v with None => 0 | Some v' => v' end) = false ->
      dx (setEnd s now e v t) (time_or_now now t) None
      = match v with None => 0 | Some v' => v' end).
Proof.
  intros Hinv Hm Hne.
  set (T := time_or_now now t).
  set (req := match v with None => 0 | Some v' => v' end).
  unfold setEnd. fold T.
  change (match v with None => lit_0 | Some v' => v' end) with req.
  destruct (jeq e (_endValue s) && almostZero req) eqn:G1.
  { (* the first guard returns *)
    split; [apply same_close|]. split; [intros _; apply same_close|].
    intros Hreq. rewrite Hreq, andb_false_r in G1. discriminate. }
  destruct (_solution s) as [sol|] eqn:Hsol; cbv zeta.
  - (* a motion is in flight *)
    set (dt := sinceStart s T).
    set (vel1 := if almostZero req then sol_dx sol dt else req).
    set (vel2 := if almostZero vel1 then lit_0 else vel1).
    set (pos2 := if almostZero (sol_x sol dt) then lit_0 else sol_x sol dt).
    cbv iota beta.
    destruct (true && almostZero (jsub (jadd pos2 (_endValue s)) e)
              && almostZero vel2) eqn:G2.
    + (* the second guard returns *)
      split; [apply same_close|]. split; [intros _; apply same_close|].
      intros Hreq. exfalso.
      apply andb_true_iff in G2. destruct G2 as [_ G2].
      subst vel2 vel1. rewrite Hreq in G2. cbv iota in G2.
      rewrite Hreq in G2. cbv iota in G2. congruence.
    + unfold x, dx. simpl. rewrite Hsol.
      replace ((T - T) / 1000) with 0 by lra.
      match goal with |- context [_solve ?s1 ?i ?vv] =>
        destruct (@_solve_initial_conditions s1 i vv Hm Hne) as [Hx Hdx]
      end.
      rewrite Hx, Hdx. change ((T - _startTime s) / 1000) with dt.
      split; [|split].
      * replace (e + (pos2 + _endValue s - e) - (_endValue s + sol_x sol dt))
          with (pos2 - sol_x sol dt) by lra.
        apply rounded_close.
      * intros Hreq. subst vel2 vel1. rewrite Hreq. cbv iota.
        apply rounded_close.
      * intros Hreq. subst vel2 vel1. rewrite Hreq. cbv iota.
        rewrite Hreq. reflexivity.
  - (* no solution yet: the spring rests at its end value, which is 0 *)
    simpl. unfold x, dx. simpl. rewrite Hsol.
    replace ((T - T) / 1000) with 0 by lra.
    match goal with |- context [_solve ?s1 ?i ?vv] =>
      destruct (@_solve_initial_conditions s1 i vv Hm Hne) as [Hx Hdx]
    end.
    rewrite Hx, Hdx. rewrite (Hinv Hsol). simpl.
    split; [|split].
    + replace (e + (0 - e) - 0) with 0 by lra. rewrite Rabs_R0. lra.
    + intros Hreq. apply almostZero_iff in Hreq.
      replace (req - 0) with req by lra. exact Hreq.
    + reflexivity.
Qed.

(** C6, as stated, fails: the carousel spring at rest, retargeted with the
    release velocity of a swipe, [setEnd(375, -800)], has velocity [0] just
    before and [-800] just after. *)
Lemma retarget_velocity_jump_counterexample :
  ~ (Rabs (dx (setEnd resting_carousel_spring 1000 375 (Some (- (800))) None)
              1000 None
           - dx resting_carousel_spring 1000 None) <= 1 / 1000).
Proof.
  assert (Hnz : almostZero (- (800)) = false).
  { destruct (almostZero (- (800))) eqn:H; [|reflexivity].
    apply almostZero_iff in H. apply Rabs_def2 in H. lra. }
  assert (Hinv : null_at_zero resting_carousel_spring)
    by (intros H; discriminate H).
  destruct (@setEnd_continuous resting_carousel_spring 1000 375
              (Some (- (800))) None Hinv) as [_ [_ Hv]];
    [simpl; lra | simpl; lra |].
  simpl in Hv. rewrite (Hv Hnz).
  unfold dx. simpl.
  replace (- (800) - 0) with (- (800)) by lra.
  rewrite Rabs_Ropp, Rabs_right by lra. lra.
Qed.

(** C6, amended: for a spring with positive mass that is not critically
    damped, after any history of calls, a [setEnd] moves the sampled position
    by less than [EPSILON]; it moves the sampled velocity by less than
    [EPSILON] when the requested velocity is almost zero, and otherwise the
    velocity sampled just after is the requested one. *)
Theorem retarget_continuity (k c m : R) (ops : list (Op R)) (s : Spring R)
    (now e : R) (v t : option R) :
  s = run_ops ops (constructor k c m) ->
  0 < _m s ->
  _c s * _c s <> 4 * _m s * _k s ->
  Rabs (x (setEnd s now e v t) (time_or_now now t) None
        - x s (time_or_now now t) None) < 1 / 1000
  /\ (almostZero (match v with None => 0 | Some v' => v' end) = true ->
      Rabs (dx (setEnd s now e v t) (time_or_now now t) None
            - dx s (time_or_now now t) None) < 1 / 1000)
  /\ (almostZero (match v with None => 0 | Some v' => v' end) = false ->
      dx (setEnd s now e v t) (time_or_now now t) None
      = match v with None => 0 | Some v' => v' end).
Proof.
  intros Hs Hm Hne. apply setEnd_continuous; try assumption.
  subst s. apply run_ops_null_at_zero. apply constructor_null_at_zero.
Qed.

Lemma retarget_continuity_witness :
  Rabs (x (setEnd (run_ops [OpSnap 0 0] (constructor 230 30 1))
             1000 375 (Some (- (800))) None)
          (time_or_now 1000 None) None
        - x (run_ops [OpSnap 0 0] (constructor 230 30 1))
            (time_or_now 1000 None) None) < 1 / 1000
  /\ (almostZero (- (800)) = true ->
      Rabs (dx (setEnd (run_ops [OpSnap 0 0] (constructor 230 30 1))
                  1000 375 (Some (- (800))) None)
               (time_or_now 1000 None) None
            - dx (run_ops [OpSnap 0 0] (constructor 230 30 1))
                 (time_or_now 1000 None) None) < 1 / 1000)
  /\ (almostZero (- (800)) = false ->
      dx (setEnd (run_ops [OpSnap 0 0] (constructor 230 30 1))
            1000 375 (Some (- (800))) None)
         (time_or_now 1000 None) None
      = - (800)).
Proof.
  apply (@retarget_continuity 230 30 1 [OpSnap 0 0]
           (run_ops [OpSnap 0 0] (constructor 230 30 1))
           1000 375 (Some (- (800))) None).
  - reflexivity.
  - simpl. lra.
  - simpl. lra.
Defined.

End RealSpring.

(** * The spring over binary64 numbers *)

Section FloatSpring.

Variable host : MathImpl.

#[local] Instance host_numbers : JSNumber float := float_JSNumber host.

Local Open Scope float_scope.

Lemma nan_mul_l (p : float) : nan * p = nan.
Proof. apply Prim2SF_inj. rewrite mul_spec. reflexivity. Qed.

Lemma nan_add_r (p : float) : p + nan = nan.
Proof.
  apply Prim2SF_inj. rewrite add_spec.
  change (Prim2SF nan) with S754_nan.
  destruct (Prim2SF p); reflexivity.
Qed.

(** [r * 0] is a zero or [NaN], and dividing by it gives an infinity or
    [NaN]: this is [c2] of the critical branch for the initial position
    [0], whatever the spring and the velocity. *)
Lemma div_by_mul_zero (v r : float) :
  v / (r * 0) = nan \/ v / (r * 0) = infinity \/ v / (r * 0) = neg_infinity.
Proof.
  assert (Hd : Prim2SF (r * 0) = S754_nan
               \/ exists sg, Prim2SF (r * 0) = S754_zero sg).
  { rewrite mul_spec. change (Prim2SF 0) with (S754_zero false).
    destruct (Prim2SF r) as [sg|sg| |sg mm ee]; simpl;
      try (left; reflexivity); right; eexists; reflexivity. }
  assert (Hq : Prim2SF (v / (r * 0)) = S754_nan
               \/ exists sg, Prim2SF (v / (r * 0)) = S754_infinity sg).
  { rewrite div_spec. destruct Hd as [Hd | [sg Hd]]; rewrite Hd.
    - left. destruct (Prim2SF v); reflexivity.
    - destruct (Prim2SF v) as [sv|sv| |sv mm ee]; simpl;
        try (left; reflexivity); right; eexists; reflexivity. }
  destruct Hq as [Hq | [[|] Hq]].
  - left. apply Prim2SF_inj. exact Hq.
  - right. right. apply Prim2SF_inj. exact Hq.
  - right. left. apply Prim2SF_inj. exact Hq.
Qed.

(** Every critically damped spring, started at the relative position [0]:
    [c2] is an infinity or [NaN]. *)
Lemma critical_c2_at_position_zero (s : Spring float) (velocity t : float) :
  (_c s * _c s - 4 * _m s * _k s =? 0) = true ->
  exists c2,
    (c2 = nan \/ c2 = infinity \/ c2 = neg_infinity)
    /\ sol_x (_solve s 0 velocity) t
       = (0 + c2 * t) * impl_pow_E host (- _c s / (2 * _m s) * t).
Proof.
  intros Hcrit.
  exists (velocity / (- _c s / (2 * _m s) * 0)). split.
  - apply div_by_mul_zero.
  - exact (@_solve_critical float host_numbers s 0 velocity t Hcrit).
Qed.

(** C1 fails on the program.  [new Spring(1, 2)] has [c * c = 4 * m * k]
    exactly, and [_solve] does take the critical branch; but for the initial
    position [0] and velocity [1] it computes [c2 = 1 / (-1 * 0)], which is
    [-Infinity], and the position at [t = 0] is [NaN]; for velocity [0] it
    computes [c2 = 0 / (-1 * 0)], which is [NaN].  The public methods get
    there: after [snap(0)] and [setEnd(0, 1)], [x()] is [NaN]. *)
Theorem critical_branch_divides_by_zero (t : float) :
  sol_x (_solve (critical_spring host) 0 1) t
  = (0 + neg_infinity * t) * impl_pow_E host (-1 * t)
  /\ is_nan (sol_x (_solve (critical_spring host) 0 1) 0) = true
  /\ is_nan (sol_x (_solve (critical_spring host) 0 0) t) = true
  /\ is_nan (x (setEnd (snap (critical_spring host) 1000 0)
                  1000 0 (Some 1) None) 1000 None) = true.
Proof.
  split; [reflexivity|]. split; [|split].
  - change (sol_x (_solve (critical_spring host) 0 1) 0)
      with (nan * impl_pow_E host (-1 * 0)).
    rewrite nan_mul_l. reflexivity.
  - change (sol_x (_solve (critical_spring host) 0 0) t)
      with ((0 + nan * t) * impl_pow_E host (-1 * t)).
    rewrite nan_mul_l, nan_add_r, nan_mul_l. reflexivity.
  - change (x (setEnd (snap (critical_spring host) 1000 0)
                 1000 0 (Some 1) None) 1000 None)
      with (0 + nan * impl_pow_E host (-1 * ((1000 - 1000) / 1000))).
    rewrite nan_mul_l. reflexivity.
Qed.

(** ** The exact claims again, in binary64 *)

Lemma SFeqb_refl (f : spec_float) : f <> S754_nan -> SFeqb f f = true.
Proof.
  intros Hf. destruct f as [sg|sg| |sg mm ee]; try contradiction.
  - reflexivity.
  - destruct sg; reflexivity.
  - unfold SFeqb, SFcompare.
    rewrite Z.compare_refl, Pos.compare_refl. destruct sg; reflexivity.
Qed.

Lemma SFltb_nan_r (f : spec_float) : SFltb f S754_nan = false.
Proof. destruct f; reflexivity. Qed.

(** [v + 0 === v] unless [v] is [NaN]; [-0 + 0] is [+0], which [===]
    equates with [-0]. *)
Lemma add_zero_same (v : float) : (v =? v) = true -> (v + 0 =? v) = true.
Proof.
  rewrite !eqb_spec, add_spec. change (Prim2SF 0) with (S754_zero false).
  intros Hv. destruct (Prim2SF v) as [sg|sg| |sg mm ee] eqn:E.
  - destruct sg; reflexivity.
  - exact Hv.
  - discriminate Hv.
  - exact Hv.
Qed.

(** A comparison with [e + d] that succeeds tells that [e] is a number. *)
Lemma ltb_add_number (a e d : float) :
  (a <? e + d) = true -> (e =? e) = true.
Proof.
  rewrite ltb_spec, add_spec, eqb_spec. intros H.
  apply SFeqb_refl. intros He. rewrite He in H.
  change (SF64add S754_nan (Prim2SF d)) with S754_nan in H.
  rewrite SFltb_nan_r in H. discriminate H.
Qed.

Lemma binary64_snap_reads_back (s : Spring float) (now v : float) :
  (v =? v) = true ->
  (x (snap s now v) now None =? v) = true
  /\ (dx (snap s now v) now None =? 0) = true.
Proof.
  intros Hv. split; [|reflexivity].
  apply add_zero_same. exact Hv.
Qed.

Lemma binary64_fresh_spring_rests (k c m now : float) (t : option float) :
  (x (constructor k c m) now None =? 0) = true
  /\ (dx (constructor k c m) now None =? 0) = true
  /\ done (constructor k c m) now t = true.
Proof. repeat split. Qed.

Lemma binary64_same_target_returns (s : Spring float) (now now' : float)
    (t t' : option float) :
  done s now t = true ->
  setEnd s now' (_endValue s) (Some 0) t' = s.
Proof.
  intros Hd. unfold done in Hd.
  apply andb_true_iff in Hd. destruct Hd as [Hd _].
  unfold almostEqual in Hd. apply andb_true_iff in Hd. destruct Hd as [_ Hd].
  apply ltb_add_number in Hd.
  unfold setEnd.
  change (jeq (_endValue s) (_endValue s)) with (_endValue s =? _endValue s).
  rewrite Hd. reflexivity.
Qed.

End FloatSpring.

(** * More on the spring over the real numbers *)

Section Derivatives.

Local Open Scope R_scope.
















End Derivatives.

Section Settling.

Local Open Scope R_scope.

(** A decaying exponential gets below [EPSILON] and stays there. *)
Lemma decay_small (r B : R) :
  r < 0 -> 0 <= B ->
  exists T, 0 <= T /\ forall t, T <= t -> B * exp (r * t) < 1 / 1000.
Proof.
  intros Hr HB. exists (1000 * B / - r). split.
  - apply Rmult_le_pos; [lra|]. apply Rlt_le, Rinv_0_lt_compat. lra.
  - intros t Ht.
    assert (Hy : 1000 * B <= - r * t).
    { apply Rmult_le_compat_l with (r := - r) in Ht; [|lra].
      replace (- r * (1000 * B / - r)) with (1000 * B) in Ht by (field; lra).
      exact Ht. }
    assert (He : 1 + - r * t <= exp (- r * t)) by apply exp_ineq1_le.
    assert (Hpos : 0 < exp (- r * t)) by apply exp_pos.
    replace (r * t) with (- (- r * t)) by ring. rewrite exp_Ropp.
    apply Rmult_lt_reg_r with (r := exp (- r * t)); [exact Hpos|].
    rewrite Rmult_assoc, Rinv_l by lra. lra.
Qed.

Lemma decay_bound (f : R -> R) (r B : R) :
  r < 0 ->
  (forall t, 0 <= t -> Rabs (f t) <= B * exp (r * t)) ->
  exists T, 0 <= T /\ forall t, T <= t -> Rabs (f t) < 1 / 1000.
Proof.
  intros Hr Hf.
  assert (HB : 0 <= B).
  { specialize (Hf 0 (Rle_refl 0)). rewrite Rmult_0_r, exp_0 in Hf.
    pose proof (Rabs_pos (f 0)). lra. }
  destruct (decay_small Hr HB) as [T [HT Hsmall]].
  exists T. split; [exact HT|]. intros t Ht.
  apply Rle_lt_trans with (B * exp (r * t));
    [apply Hf; lra | apply Hsmall; exact Ht].
Qed.

Lemma Rabs_combo (a b u v : R) :
  Rabs u <= 1 -> Rabs v <= 1 -> Rabs (a * u + b * v) <= Rabs a + Rabs b.
Proof.
  intros Hu Hv.
  apply Rle_trans with (Rabs (a * u) + Rabs (b * v)); [apply Rabs_triang|].
  rewrite !Rabs_mult.
  pose proof (Rabs_pos a). pose proof (Rabs_pos b).
  apply Rplus_le_compat.
  - rewrite <- (Rmult_1_r (Rabs a)) at 2. apply Rmult_le_compat_l; assumption.
  - rewrite <- (Rmult_1_r (Rabs b)) at 2. apply Rmult_le_compat_l; assumption.
Qed.

Lemma Rabs_cos_le_1 (y : R) : Rabs (cos y) <= 1.
Proof. apply Rabs_le. pose proof (COS_bound y). lra. Qed.

Lemma Rabs_sin_le_1 (y : R) : Rabs (sin y) <= 1.
Proof. apply Rabs_le. pose proof (SIN_bound y). lra. Qed.

Lemma Rabs_two_exp (a b E1 E2 : R) :
  0 <= E1 <= E2 -> Rabs (a * E1 + b * E2) <= (Rabs a + Rabs b) * E2.
Proof.
  intros [H1 H2].
  apply Rle_trans with (Rabs (a * E1) + Rabs (b * E2)); [apply Rabs_triang|].
  rewrite !Rabs_mult, (Rabs_pos_eq E1), (Rabs_pos_eq E2) by lra.
  pose proof (Rabs_pos a). pose proof (Rabs_pos b).
  assert (Rabs a * E1 <= Rabs a * E2) by (apply Rmult_le_compat_l; assumption).
  lra.
Qed.

Lemma settling_of_bounds (sol : Solution R) (r Bx Bv : R) :
  r < 0 ->
  (forall t, 0 <= t -> Rabs (sol_x sol t) <= Bx * exp (r * t)) ->
  (forall t, 0 <= t -> Rabs (sol_dx sol t) <= Bv * exp (r * t)) ->
  settling sol.
Proof.
  intros Hr Hx Hv.
  destruct (decay_bound _ Hr Hx) as [T1 [HT1 H1]].
  destruct (decay_bound _ Hr Hv) as [T2 [HT2 H2]].
  exists (Rmax T1 T2). intros t Ht.
  pose proof (Rmax_l T1 T2). pose proof (Rmax_r T1 T2).
  split; [apply H1 | apply H2]; lra.
Qed.

(** The over- and the underdamped solution decay: both roots are negative,
    and so is the rate of the oscillation. *)
Lemma settling_solve (s : Spring R) (initial velocity : R) :
  well_damped (_m s) (_k s) (_c s) -> settling (_solve s initial velocity).
Proof.
  intros (Hm & Hk & Hc & Hne). unfold _solve. simpl.
  rewrite Reqb_false by lra.
  destruct (Rlt_dec 0 (_c s * _c s - 4 * _m s * _k s)) as [Hover | Hunder].
  - rewrite Rltb_true by exact Hover.
    set (q := sqrt (_c s * _c s - 4 * _m s * _k s)).
    assert (Hq0 : 0 < q) by (apply sqrt_lt_R0; exact Hover).
    assert (Hqc : q < _c s).
    { rewrite <- (sqrt_square (_c s)) by lra. apply sqrt_lt_1_alt.
      assert (0 < _m s * _k s) by (apply Rmult_lt_0_compat; assumption). lra. }
    set (r1 := (- _c s - q) / (2 * _m s)).
    set (r2 := (- _c s + q) / (2 * _m s)).
    assert (Hr2 : r2 < 0).
    { replace r2 with (- ((_c s - q) / (2 * _m s))) by (unfold r2; field; lra).
      assert (0 < (_c s - q) / (2 * _m s)) by (apply Rdiv_lt_0_compat; lra).
      lra. }
    assert (Hr12 : r1 <= r2).
    { replace r2 with (r1 + 2 * q / (2 * _m s)) by (unfold r1, r2; field; lra).
      assert (0 < 2 * q / (2 * _m s)) by (apply Rdiv_lt_0_compat; lra).
      lra. }
    set (c2 := (velocity - r1 * initial) / (r2 - r1)).
    assert (Hexp : forall t, 0 <= t -> 0 <= exp (r1 * t) <= exp (r2 * t)).
    { intros t Ht. split; [apply Rlt_le, exp_pos|].
      destruct (Req_dec (r1 * t) (r2 * t)) as [-> | Hd]; [lra|].
      apply Rlt_le, exp_increasing.
      assert (r1 * t <= r2 * t) by (apply Rmult_le_compat_r; assumption). lra. }
    apply settling_of_bounds with (r := r2)
      (Bx := Rabs (initial - c2) + Rabs c2)
      (Bv := Rabs ((initial - c2) * r1) + Rabs (c2 * r2)); [exact Hr2 | |];
      intros t Ht; simpl; apply Rabs_two_exp; apply Hexp; exact Ht.
  - rewrite Rltb_false by lra.
    set (w := sqrt (4 * _m s * _k s - _c s * _c s) / (2 * _m s)).
    set (r := - (_c s / 2 * _m s)).
    assert (Hr : r < 0).
    { unfold r. assert (0 < _c s / 2 * _m s)
        by (apply Rmult_lt_0_compat; lra). lra. }
    set (c2 := (velocity - r * initial) / w).
    apply settling_of_bounds with (r := r)
      (Bx := Rabs initial + Rabs c2)
      (Bv := Rabs (c2 * w + r * initial) + Rabs (r * c2 - initial * w));
      [exact Hr | |]; intros t Ht; simpl.
    + rewrite Rabs_mult, (Rabs_pos_eq (exp (r * t)))
        by (apply Rlt_le, exp_pos).
      rewrite (Rmult_comm (Rabs _ + Rabs _)).
      apply Rmult_le_compat_l; [apply Rlt_le, exp_pos|].
      apply Rabs_combo; [apply Rabs_cos_le_1 | apply Rabs_sin_le_1].
    + replace (exp (r * t) * (c2 * w * cos (w * t) - initial * w * sin (w * t))
               + r * exp (r * t) * (c2 * sin (w * t) + initial * cos (w * t)))
        with (exp (r * t) * ((c2 * w + r * initial) * cos (w * t)
                             + (r * c2 - initial * w) * sin (w * t))) by ring.
      rewrite Rabs_mult, (Rabs_pos_eq (exp (r * t)))
        by (apply Rlt_le, exp_pos).
      rewrite (Rmult_comm (Rabs _ + Rabs _)).
      apply Rmult_le_compat_l; [apply Rlt_le, exp_pos|].
      apply Rabs_combo; [apply Rabs_cos_le_1 | apply Rabs_sin_le_1].
Qed.


Lemma settling_rest : settling {| sol_x := fun _ => 0; sol_dx := fun _ => 0 |}.
Proof.
  exists 0. intros t _. simpl. rewrite Rabs_R0. lra.
Qed.

(** What [setEnd] and [reconfigure] leave behind. *)
Lemma setEnd_result (s : Spring R) (now e : R) (v t : option R) :
  setEnd s now e v t = s
  \/ exists s1 initial velocity,
       _m s1 = _m s /\ _k s1 = _k s /\ _c s1 = _c s
       /\ setEnd s now e v t
          = {| _m := _m s; _k := _k s; _c := _c s;
               _solution := Some (_solve s1 initial velocity);
               _endValue := e;
               _startTime := time_or_now now t |}.
Proof.
  unfold setEnd.
  destruct (jeq e (_endValue s) && almostZero _); [left; reflexivity|].
  destruct (_solution s) as [sol|]; cbv zeta.
  - match goal with |- context [if ?b then s else _] => destruct b end.
    + left; reflexivity.
    + right. do 3 eexists.
      refine (conj _ (conj _ (conj _ eq_refl))); reflexivity.
  - right. do 3 eexists.
      refine (conj _ (conj _ (conj _ eq_refl))); reflexivity.
Qed.

Lemma reconfigure_result (s : Spring R) (now m k c : R) :
  reconfigure s now m k c
  = {| _m := m; _k := k; _c := c; _solution := _solution s;
       _endValue := _endValue s; _startTime := _startTime s |}
  \/ exists s1 initial velocity,
       _m s1 = m /\ _k s1 = k /\ _c s1 = c
       /\ reconfigure s now m k c
          = {| _m := m; _k := k; _c := c;
               _solution := Some (_solve s1 initial velocity);
               _endValue := _endValue s;
               _startTime := now |}.
Proof.
  unfold reconfigure. destruct (done _ now None).
  - left; reflexivity.
  - right. do 3 eexists.
      refine (conj _ (conj _ (conj _ eq_refl))); reflexivity.
Qed.

Lemma apply_op_comes_to_rest (s : Spring R) (op : Op R) :
  well_damped_op op -> comes_to_rest s -> comes_to_rest (apply_op s op).
Proof.
  intros Hop [Hwd Hsol].
  destruct op as [now e v t | now e | now m k c]; simpl.
  - destruct (setEnd_result s now e v t)
      as [-> | (s1 & i & vel & Hm & Hk & Hc & ->)].
    + split; assumption.
    + split; [exact Hwd|]. simpl.
      apply settling_solve. rewrite Hm, Hk, Hc. exact Hwd.
  - split; [exact Hwd | apply settling_rest].
  - simpl in Hop.
    destruct (reconfigure_result s now m k c)
      as [-> | (s1 & i & vel & Hm & Hk & Hc & ->)].
    + split; [exact Hop | exact Hsol].
    + split; [exact Hop|]. simpl.
      apply settling_solve. rewrite Hm, Hk, Hc. exact Hop.
Qed.

Lemma run_ops_comes_to_rest (ops : list (Op R)) :
  forall s : Spring R,
    Forall well_damped_op ops -> comes_to_rest s ->
    comes_to_rest (run_ops ops s).
Proof.
  unfold run_ops. induction ops as [|op ops IH]; intros s Hops Hs; simpl.
  - exact Hs.
  - inversion Hops as [|op' ops' Hop Hrest]; subst.
    apply IH; [exact Hrest|]. apply apply_op_comes_to_rest; assumption.
Qed.

Lemma comes_to_rest_done (s : Spring R) :
  comes_to_rest s ->
  exists T, forall now t, T <= now -> done s now t = true.
Proof.
  intros [_ Hsol]. unfold done, x, dx.
  destruct (_solution s) as [sol|].
  - destruct Hsol as [T HT].
    exists (_startTime s + 1000 * T). intros now t Hnow. simpl.
    assert (Hdt : T <= (now - _startTime s) / 1000) by lra.
    destruct (HT _ Hdt) as [Hx Hv].
    apply andb_true_iff. split.
    + apply almostEqual_iff.
      replace (_endValue s + sol_x sol ((now - _startTime s) / 1000)
               - _endValue s)
        with (sol_x sol ((now - _startTime s) / 1000)) by ring.
      exact Hx.
    + apply almostZero_iff. exact Hv.
  - exists 0. intros now t _. simpl. rewrite Hsol.
    rewrite almostEqual_refl, almostZero_0. reflexivity.
Qed.

(** A spring with positive mass, stiffness and damping that is not
    critically damped comes to rest: after any calls of [setEnd], [snap]
    and [reconfigure] (with constants of that kind), from some time on
    [done()] is [true] and stays [true]. *)
Theorem spring_comes_to_rest (k c m : R) (ops : list (Op R)) :
  well_damped m k c ->
  Forall well_damped_op ops ->
  exists T, forall now t,
    T <= now -> done (run_ops ops (constructor k c m)) now t = true.
Proof.
  intros Hwd Hops. apply comes_to_rest_done.
  apply run_ops_comes_to_rest; [exact Hops|].
  split; [exact Hwd | reflexivity].
Qed.

Lemma spring_comes_to_rest_witness :
  exists T, forall now t,
    T <= now ->
    done (run_ops [OpSnap 0 0; OpSetEnd 1000 375 (Some (- (800))) None]
            (constructor 230 30 1)) now t = true.
Proof.
  apply (@spring_comes_to_rest 230 30 1
           [OpSnap 0 0; OpSetEnd 1000 375 (Some (- (800))) None]).
  - unfold well_damped. lra.
  - repeat constructor.
Defined.

End Settling.

Section Reconfigure.

Local Open Scope R_scope.

(** [reconfigure] changes the constants and nothing one can see at the
    moment of the call: position, velocity and end value stay, whether the
    spring was done or is solved again (for a positive mass, away from the
    critical damping). *)
Theorem reconfigure_keeps_motion (s : Spring R) (now m k c : R) :
  0 < m ->
  c * c <> 4 * m * k ->
  x (reconfigure s now m k c) now None = x s now None
  /\ dx (reconfigure s now m k c) now None = dx s now None
  /\ _endValue (reconfigure s now m k c) = _endValue s
  /\ _m (reconfigure s now m k c) = m
  /\ _k (reconfigure s now m k c) = k
  /\ _c (reconfigure s now m k c) = c.
Proof.
  intros Hm Hne. unfold reconfigure.
  destruct (done _ now None).
  - repeat split.
  - match goal with |- context [_solve ?s1 ?i ?v] =>
      destruct (@_solve_initial_conditions s1 i v Hm Hne) as [Hx Hv];
      remember (_solve s1 i v) as sol eqn:Hsol; clear Hsol
    end.
    unfold x at 1, dx at 1, sinceStart.
    cbn [_solution _endValue _startTime jadd jsub jdiv lit_1000 R_JSNumber].
    replace ((now - now) / 1000) with 0 by lra.
    rewrite Hx, Hv. cbn [_endValue jsub R_JSNumber].
    repeat split.
    unfold x, sinceStart. simpl. destruct (_solution s); lra.
Qed.

Lemma reconfigure_keeps_motion_witness :
  x (reconfigure (setEnd (constructor 230 30 1) 0 375 None None)
       500 2 100 5) 500 None
  = x (setEnd (constructor 230 30 1) 0 375 None None) 500 None
  /\ dx (reconfigure (setEnd (constructor 230 30 1) 0 375 None None)
          500 2 100 5) 500 None
     = dx (setEnd (constructor 230 30 1) 0 375 None None) 500 None
  /\ _endValue (reconfigure (setEnd (constructor 230 30 1) 0 375 None None)
                 500 2 100 5)
     = _endValue (setEnd (constructor 230 30 1) 0 375 None None)
  /\ _m (reconfigure (setEnd (constructor 230 30 1) 0 375 None None)
           500 2 100 5) = 2
  /\ _k (reconfigure (setEnd (constructor 230 30 1) 0 375 None None)
           500 2 100 5) = 100
  /\ _c (reconfigure (setEnd (constructor 230 30 1) 0 375 None None)
           500 2 100 5) = 5.
Proof.
  apply (@reconfigure_keeps_motion
           (setEnd (constructor 230 30 1) 0 375 None None) 500 2 100 5); lra.
Defined.

End Reconfigure.

(** * More on the animation driver *)

Section Tidy.

Variable M : Type.
Variable cl : Client M.

Lemma invocations_app (c : Call) (l1 l2 : list Call) :
  invocations c (l1 ++ l2) = invocations c l1 + invocations c l2.
Proof. unfold invocations. rewrite filter_app, length_app. reflexivity. Qed.

Lemma withdraw_only (i : nat) :
  filter (fun j => negb (Nat.eqb i j)) [i] = [].
Proof. simpl. rewrite Nat.eqb_refl. reflexivity. Qed.

Lemma cancel_frames_tidy (w : World M) : tidy w -> frames (cancel w) = [].
Proof.
  intros [[Hf | (Hf & Hid & _)] _].
  - apply cancel_frames_nil. exact Hf.
  - unfold cancel. apply Nat.eqb_neq in Hid. rewrite Hid. simpl.
    rewrite Hf. apply withdraw_only.
Qed.

Lemma cancel_tidy (w : World M) : tidy w -> tidy (cancel w).
Proof.
  intros Hw. split.
  - left. apply cancel_frames_tidy. exact Hw.
  - rewrite cancel_calls. apply Hw.
Qed.

Lemma invoke_handle_cancelled (tag : Call) (f : M -> M * bool) (w : World M) :
  cancelled (handle w) = true -> cancelled (handle (invoke tag f w)) = true.
Proof.
  intros Hc. unfold invoke.
  destruct (f (model w)) as [m [|]]; [reflexivity | exact Hc].
Qed.

Lemma processFrame_tidy (w : World M) :
  frames w = [] -> invocations OnFinish (calls w) = 0 ->
  tidy (processFrame cl w).
Proof.
  intros Hf Hc. unfold processFrame.
  destruct (cancelled (handle w)) eqn:Hcan.
  { split; [left; exact Hf | lia]. }
  set (w1 := invoke OnFrame (onFrame cl) w).
  assert (Hf1 : frames w1 = []) by (apply invoke_frames_nil; exact Hf).
  assert (Hc1 : invocations OnFinish (calls w1) = 0).
  { subst w1. rewrite invoke_calls, invocations_app, Hc. reflexivity. }
  destruct (model_done cl (model w1)) as [d m].
  assert (Hfin : tidy match onFinish cl with
                      | Some f => invoke OnFinish f (set_model m w1)
                      | None => set_model m w1
                      end).
  { destruct (onFinish cl) as [f|].
    - split.
      + left. apply invoke_frames_nil. exact Hf1.
      + rewrite invoke_calls, invocations_app.
        change (calls (set_model m w1)) with (calls w1). rewrite Hc1.
        change (invocations OnFinish [OnFinish]) with 1. lia.
    - split; [left; exact Hf1|].
      change (calls (set_model m w1)) with (calls w1). lia. }
  destruct d; simpl; [exact Hfin|].
  destruct (cancelled (handle w1)) eqn:Hcan1; simpl; [exact Hfin|].
  split.
  - right. simpl. rewrite Hf1.
    split; [reflexivity|]. split; [discriminate|].
    split; [reflexivity | exact Hc1].
  - change (invocations OnFinish (calls w1) <= 1). lia.
Qed.

Lemma runAnimation_tidy (m : M) (n : nat) : tidy (runAnimation cl m n).
Proof. apply processFrame_tidy; reflexivity. Qed.

Lemma step_tidy (w : World M) (e : Event M) : tidy w -> tidy (step cl w e).
Proof.
  intros Hw. destruct e as [| |f]; simpl.
  - destruct Hw as [[Hf | (Hf & Hid & Hcan & Hc)] Hle].
    + rewrite Hf. simpl. split; [left; exact Hf | exact Hle].
    + rewrite Hf. cbn [runFrames]. rewrite Hf. cbn [existsb].
      rewrite Nat.eqb_refl. cbn [orb].
      apply processFrame_tidy; simpl.
      * rewrite Hf. apply withdraw_only.
      * exact Hc.
  - apply cancel_tidy. exact Hw.
  - exact Hw.
Qed.

Lemma run_tidy (es : list (Event M)) :
  forall w : World M, tidy w -> tidy (run cl es w).
Proof.
  unfold run. induction es as [|e es IH]; intros w Hw; simpl.
  - exact Hw.
  - apply IH. apply step_tidy. exact Hw.
Qed.

(** Whatever the model and the callbacks do, and whatever happens after
    [runAnimation] has returned, [onFinish] is invoked at most once. *)
Theorem onFinish_at_most_once (m : M) (n : nat) (es : list (Event M)) :
  invocations OnFinish (calls (run cl es (runAnimation cl m n))) <= 1.
Proof. apply (run_tidy es (runAnimation_tidy m n)). Qed.

(** The driver never has more than one frame request pending, and
    [cancel()] withdraws the one there is. *)
Theorem one_request_pending (m : M) (n : nat) (es : list (Event M)) :
  length (frames (run cl es (runAnimation cl m n))) <= 1
  /\ frames (run cl (es ++ [Cancel]) (runAnimation cl m n)) = [].
Proof.
  pose proof (run_tidy es (runAnimation_tidy m n)) as Hw. split.
  - destruct Hw as [[Hf | (Hf & _)] _]; rewrite Hf; simpl; lia.
  - unfold run. rewrite fold_left_app. simpl.
    apply cancel_frames_tidy. exact Hw.
Qed.

(** Once [onFinish] has been invoked, no request is pending and no callback
    is invoked again. *)
Theorem nothing_after_onFinish (m : M) (n : nat) (es later : list (Event M)) :
  invocations OnFinish (calls (run cl es (runAnimation cl m n))) = 1 ->
  calls (run cl (es ++ later) (runAnimation cl m n))
  = calls (run cl es (runAnimation cl m n))
  /\ frames (run cl es (runAnimation cl m n)) = [].
Proof.
  intros H1.
  pose proof (run_tidy es (runAnimation_tidy m n))
    as [[Hf | (_ & _ & _ & H0)] _];
    [|rewrite H0 in H1; discriminate].
  split; [|exact Hf].
  unfold run. rewrite fold_left_app.
  apply (run_idle cl later). exact Hf.
Qed.

(** A second [cancel()] changes nothing. *)
Theorem cancel_idempotent (w : World M) : cancel (cancel w) = cancel w.
Proof.
  unfold cancel. destruct (negb (Nat.eqb (id (handle w)) 0)) eqn:Hid; simpl.
  - rewrite Hid. unfold cancelAnimationFrame, set_handle. simpl.
    f_equal. induction (frames w) as [|j l IH]; simpl; [reflexivity|].
    destruct (negb (Nat.eqb (id (handle w)) j)) eqn:Hj; simpl.
    + rewrite Hj. f_equal. exact IH.
    + exact IH.
  - rewrite Hid. reflexivity.
Qed.

End Tidy.

Lemma nothing_after_onFinish_witness :
  calls (run settled_client ([Frame] ++ [Frame; Cancel; Frame])
           (runAnimation settled_client tt 0))
  = calls (run settled_client [Frame] (runAnimation settled_client tt 0))
  /\ frames (run settled_client [Frame] (runAnimation settled_client tt 0))
     = [].
Proof.
  apply (@nothing_after_onFinish unit settled_client tt 0
           [Frame] [Frame; Cancel; Frame]).
  reflexivity.
Defined.

Section Counting.

Variable M : Type.
Variable cl : Client M.

Hypothesis onFrame_quiet : forall m, snd (onFrame cl m) = false.

Lemma invoke_quiet (w : World M) :
  invoke OnFrame (onFrame cl) w
  = {| handle := handle w; frames := frames w; last_id := last_id w;
       model := fst (onFrame cl (model w)); calls := calls w ++ [OnFrame] |}.
Proof.
  unfold invoke. specialize (onFrame_quiet (model w)).
  destruct (onFrame cl (model w)) as [m c]. simpl in *. subst c. reflexivity.
Qed.

Lemma frames_counted (finish : M -> M * bool) (j : nat) :
  onFinish cl = Some finish ->
  forall (i : nat) (w : World M),
    frames w = [] ->
    cancelled (handle w) = false ->
    settles_in cl j (model w) = true ->
    calls (run cl (repeat Frame i) (processFrame cl w))
    = calls w
      ++ repeat OnFrame (S (Nat.min i j))
      ++ (if Nat.leb j i then [OnFinish] else []).
Proof.
  intros Hfin. induction j as [|j IH]; intros i w Hf Hc Hs; simpl in Hs.
  - (* done in this frame *)
    assert (Hp : calls (processFrame cl w) = calls w ++ [OnFrame; OnFinish]
                 /\ frames (processFrame cl w) = []).
    { unfold processFrame. rewrite Hc, invoke_quiet. simpl.
      unfold done_in_frame in Hs.
      destruct (model_done cl (fst (onFrame cl (model w)))) as [d m'].
      simpl in Hs. subst d. simpl. rewrite Hfin. split.
      - rewrite invoke_calls. simpl. rewrite <- app_assoc. reflexivity.
      - apply invoke_frames_nil. exact Hf. }
    destruct Hp as [Hp1 Hp2].
    destruct (run_idle cl (repeat Frame i) _ Hp2) as [Hr _].
    rewrite Hr, Hp1. rewrite Nat.min_0_r. reflexivity.
  - apply andb_true_iff in Hs. destruct Hs as [Hnd Hs].
    apply negb_true_iff in Hnd.
    assert (Hp : exists w',
               processFrame cl w
               = {| handle := {| id := S (last_id w); cancelled := false |};
                    frames := [S (last_id w)]; last_id := S (last_id w);
                    model := model_after_frame cl (model w);
                    calls := calls w ++ [OnFrame] |} /\ w' = w).
    { exists w. split; [|reflexivity].
      unfold processFrame. rewrite Hc, invoke_quiet. simpl.
      unfold done_in_frame in Hnd. unfold model_after_frame.
      destruct (model_done cl (fst (onFrame cl (model w)))) as [d m'].
      simpl in Hnd. subst d. simpl. rewrite Hc, Hf. reflexivity. }
    destruct Hp as [_ [Hp _]]. rewrite Hp.
    destruct i as [|i].
    + simpl. reflexivity.
    + cbn [repeat].
      match goal with |- calls (run cl (Frame :: ?es) ?w0) = _ =>
        change (run cl (Frame :: es) w0) with (run cl es (step cl w0 Frame))
      end.
      cbn [step frames runFrames existsb].
      rewrite Nat.eqb_refl. cbn [orb].
      match goal with |- context [processFrame cl ?w0] =>
        rewrite (IH i w0)
      end.
      * simpl. rewrite <- app_assoc. reflexivity.
      * simpl. rewrite Nat.eqb_refl. reflexivity.
      * reflexivity.
      * exact Hs.
Qed.

(** With callbacks that do not cancel and a model whose [done()] is first
    true in frame [j + 1], after [i] display frames [onFrame] has been
    invoked [min i j + 1] times, and [onFinish] once as soon as [j] frames
    have passed: one [onFrame] per frame until the model is done, then
    [onFinish], then nothing. *)
Theorem frames_until_done (finish : M -> M * bool) (m : M) (n j i : nat) :
  onFinish cl = Some finish ->
  settles_in cl j m = true ->
  calls (run cl (repeat Frame i) (runAnimation cl m n))
  = repeat OnFrame (S (Nat.min i j))
    ++ (if Nat.leb j i then [OnFinish] else []).
Proof.
  intros Hfin Hs. unfold runAnimation.
  rewrite (@frames_counted finish j Hfin i); auto.
Qed.

End Counting.

Lemma frames_until_done_witness :
  calls (run countdown_client (repeat Frame 5)
           (runAnimation countdown_client 3 0))
  = repeat OnFrame (S (Nat.min 5 2))
    ++ (if Nat.leb 2 5 then [OnFinish] else []).
Proof.
  apply (@frames_until_done nat countdown_client (fun m => eq_refl)
           (fun m => (m, false)) 3 0 2 5); reflexivity.
Defined.

(** * More on the spring over binary64 numbers *)

Section FloatEdges.

Variable host : MathImpl.

#[local] Instance edge_numbers : JSNumber float := float_JSNumber host.

Local Open Scope float_scope.

Lemma sub_nan_r (p : float) : p - nan = nan.
Proof.
  apply Prim2SF_inj. rewrite sub_spec.
  change (Prim2SF nan) with S754_nan.
  destruct (Prim2SF p); reflexivity.
Qed.

Lemma eqb_nan_l (p : float) : (nan =? p) = false.
Proof. rewrite eqb_spec. reflexivity. Qed.

Lemma ltb_nan_l (p : float) : (nan <? p) = false.
Proof. rewrite ltb_spec. reflexivity. Qed.

Lemma ltb_nan_r (p : float) : (p <? nan) = false.
Proof.
  rewrite ltb_spec. change (Prim2SF nan) with S754_nan. apply SFltb_nan_r.
Qed.

(** [NaN] is almost equal to nothing, and nothing to [NaN]. *)
Lemma almostEqual_nan (a b : float) :
  almostEqual nan b = false /\ almostEqual a nan = false.
Proof.
  split.
  - change (almostEqual nan b)
      with ((b - EPSILON <? nan) && (nan <? b + EPSILON)).
    rewrite ltb_nan_r. reflexivity.
  - change (almostEqual a nan) with ((nan <? a) && (a <? nan)).
    rewrite ltb_nan_l. reflexivity.
Qed.

(** On binary64, [setEnd(NaN)] is never ignored: whatever the spring was
    doing, its end value becomes [NaN], and [done()] is [false] at every
    time after. *)
Theorem NaN_target_never_done (s : Spring float) (now : float)
    (v t : option float) (clock : float) (t' : option float) :
  _endValue (setEnd s now nan v t) = nan
  /\ done (setEnd s now nan v t) clock t' = false.
Proof.
  assert (Hset : _endValue (setEnd s now nan v t) = nan).
  { unfold setEnd.
    change (jeq nan (_endValue s)) with (nan =? _endValue s).
    rewrite eqb_nan_l. cbn [andb].
    destruct (_solution s) as [sol|]; cbv zeta.
    - match goal with
      | |- context [almostZero (jsub ?p nan)] =>
          change (jsub p nan) with (p - nan); rewrite sub_nan_r
      end.
      replace (almostZero nan) with false
        by (symmetry; apply (almostEqual_nan 0 0)).
      rewrite andb_false_r. reflexivity.
    - reflexivity. }
  split; [exact Hset|].
  unfold done. rewrite Hset.
  rewrite (proj2 (almostEqual_nan _ 0)). reflexivity.
Qed.
End FloatEdges.

(** * The carousel *)

Section ContainerFacts.
Import PhotosContainer.
Local Open Scope R_scope.
Variable props : Props.

(** *** Dragging *)

Lemma updateContainer_offset (c : Container) :
  offset (updateContainer props c) = offset c
  /\ transform (updateContainer props c) = - offset c.
Proof.
  unfold updateContainer.
  destruct (animateIndividualPhotos props); [|split; reflexivity].
  generalize (Math_floor (offset (set_transform (- offset c) c)
                          / viewport_width (set_transform (- offset c) c))).
  intros i0.
  assert (Hfade : forall i d, offset (fade_photo i d) = offset d
                              /\ transform (fade_photo i d) = transform d).
  { intros i d. unfold fade_photo. destruct (node_at i d); split; reflexivity. }
  assert (Hloop : forall fuel i b d,
             offset (fade_loop fuel i b d) = offset d
             /\ transform (fade_loop fuel i b d) = transform d).
  { induction fuel as [|fuel IH]; intros i b d; simpl; [split; reflexivity|].
    destruct (Rltb i b); [|split; reflexivity].
    destruct (IH (i + 1) b (fade_photo i d)) as [H1 H2].
    destruct (Hfade i d) as [H3 H4]. rewrite H1, H2, H3, H4.
    split; reflexivity. }
  destruct (Hloop 3%nat i0 (i0 + 2) (set_transform (- offset c) c)) as [H1 H2].
  rewrite H1, H2. split; reflexivity.
Qed.

(** While the pointer stays within the boundaries, the carousel follows it
    one to one, and the position is written to the transform. *)
Theorem drag_follows_pointer (delta_x : R) (c : Container) :
  minOffset c <= startOffset c - delta_x <= maxOffset c ->
  offset (onTouchMove props delta_x c) = startOffset c - delta_x
  /\ transform (onTouchMove props delta_x c) = - (startOffset c - delta_x).
Proof.
  intros [Hlo Hhi]. unfold onTouchMove.
  rewrite Rltb_false by lra. rewrite Rltb_false by lra.
  destruct (updateContainer_offset (set_offset (startOffset c - delta_x) c))
    as [H1 H2].
  rewrite H1, H2. split; reflexivity.
Qed.

(** A drag that begins at a boundary and goes past it moves the carousel
    by the fraction [1 - overshootDamping] of the pointer's way. *)
Theorem drag_past_boundary_is_damped (delta_x : R) (c : Container) :
  minOffset c <= maxOffset c ->
  (startOffset c = minOffset c /\ 0 < delta_x
   -> offset (onTouchMove props delta_x c)
      = minOffset c - (1 - overshootDamping props) * delta_x)
  /\ (startOffset c = maxOffset c /\ delta_x < 0
      -> offset (onTouchMove props delta_x c)
         = maxOffset c - (1 - overshootDamping props) * delta_x).
Proof.
  intros Hmm. split; intros [Hs Hd]; unfold onTouchMove.
  - rewrite Rltb_true by lra.
    match goal with |- offset (updateContainer props ?d) = _ =>
      destruct (updateContainer_offset d) as [H1 _]; rewrite H1
    end.
    simpl. rewrite Hs. ring.
  - rewrite Rltb_false by lra. rewrite Rltb_true by lra.
    match goal with |- offset (updateContainer props ?d) = _ =>
      destruct (updateContainer_offset d) as [H1 _]; rewrite H1
    end.
    simpl. rewrite Hs. ring.
Qed.

(** *** The target of a swipe *)







(** *** Rendering *)

Lemma fade_loop_exits (k : nat) (i : R) (c : Container) :
  fade_loop (3 + k) i (i + 2) c = fade_loop 3 i (i + 2) c.
Proof.
  cbn [fade_loop Nat.add].
  rewrite (Rltb_true (a := i) (b := i + 2)) by lra.
  rewrite (Rltb_true (a := i + 1) (b := i + 2)) by lra.
  rewrite (Rltb_false (a := i + 1 + 1) (b := i + 2)) by lra.
  destruct k; cbn [fade_loop];
    rewrite ?(Rltb_false (a := i + 1 + 1) (b := i + 2)) by lra; reflexivity.
Qed.

Lemma node_at_index (z : Z) (c : Container) :
  (0 <= z < Z.of_nat (photoNodes c))%Z ->
  node_at (IZR z) c = Some (Z.to_nat z).
Proof.
  intros [H0 Hn]. unfold node_at. rewrite ZfloorZ.
  rewrite Reqb_true by reflexivity.
  apply Z.leb_le in H0. apply Z.ltb_lt in Hn. rewrite H0, Hn. reflexivity.
Qed.

Lemma node_at_outside (z : Z) (c : Container) :
  (Z.of_nat (photoNodes c) <= z)%Z -> node_at (IZR z) c = None.
Proof.
  intros Hn. unfold node_at. rewrite ZfloorZ.
  apply Z.ltb_ge in Hn. rewrite Hn, andb_false_r. reflexivity.
Qed.

(** With [animateIndividualPhotos], [updateContainer] cross-fades the two
    photos the viewport shows: the photo at the left edge gets the opacity
    [1 - frac], the next one (when the album has one) [frac], where [frac]
    is the part of the viewport the carousel has advanced; no other photo
    is written. *)
Theorem photos_cross_fade (c : Container) :
  animateIndividualPhotos props = true ->
  0 < viewport_width c ->
  0 <= offset c < INR (photoNodes c) * viewport_width c ->
  exists (z : Z) (frac : R),
    z = Zfloor (offset c / viewport_width c)
    /\ frac = offset c / viewport_width c - IZR z
    /\ 0 <= frac < 1
    /\ (0 <= z < Z.of_nat (photoNodes c))%Z
    /\ opacities (updateContainer props c)
       = (if (z + 1 <? Z.of_nat (photoNodes c))%Z
          then [(Z.to_nat (z + 1), frac)] else [])
         ++ (Z.to_nat z, 1 - frac) :: opacities c.
Proof.
  intros Hanim HW [Ho0 Hon].
  set (W := viewport_width c) in *.
  set (q := offset c / W).
  set (z := Zfloor q). set (frac := q - IZR z).
  pose proof (Zfloor_bound q) as [Hz1 Hz2]. fold z in Hz1, Hz2.
  assert (Hq0 : 0 <= q).
  { apply Rmult_le_pos; [lra | apply Rlt_le, Rinv_0_lt_compat; exact HW]. }
  assert (Hqn : q < INR (photoNodes c)).
  { apply Rmult_lt_reg_r with W; [exact HW|].
    replace (q * W) with (offset c) by (unfold q; field; lra). exact Hon. }
  assert (Hzr : (0 <= z < Z.of_nat (photoNodes c))%Z).
  { split.
    - apply Zfloor_lub. simpl. exact Hq0.
    - apply lt_IZR. rewrite <- INR_IZR_INZ. lra. }
  exists z, frac. repeat split; try (unfold frac; lra); try apply Hzr.
  unfold updateContainer. rewrite Hanim.
  change (Math_floor (offset (set_transform (- offset c) c)
                      / viewport_width (set_transform (- offset c) c)))
    with (IZR z).
  cbn [fade_loop].
  rewrite (Rltb_true (a := IZR z) (b := IZR z + 2)) by lra.
  rewrite (Rltb_true (a := IZR z + 1) (b := IZR z + 2)) by lra.
  rewrite (Rltb_false (a := IZR z + 1 + 1) (b := IZR z + 2)) by lra.
  unfold fade_photo at 2.
  rewrite node_at_index by exact Hzr.
  cbn [viewport_width offset set_transform]. fold W.
  assert (E1 : (1 - Math_abs ((W * IZR z - offset c) / W)) * (1 - 0) + 0
               = 1 - frac).
  { replace ((W * IZR z - offset c) / W) with (- frac)
      by (unfold frac, q; field; lra).
    unfold Math_abs. rewrite Rabs_Ropp, Rabs_pos_eq by (unfold frac; lra).
    ring. }
  rewrite E1.
  replace (IZR z + 1) with (IZR (z + 1)) by (rewrite plus_IZR; reflexivity).
  unfold fade_photo.
  destruct (z + 1 <? Z.of_nat (photoNodes c))%Z eqn:Hnext.
  - apply Z.ltb_lt in Hnext.
    rewrite node_at_index
      by (cbn [photoNodes write_opacity set_transform]; lia).
    cbn [viewport_width offset write_opacity opacities set_transform].
    fold W.
    assert (E2 : (1 - Math_abs ((W * IZR (z + 1) - offset c) / W))
                 * (1 - 0) + 0 = frac).
    { replace ((W * IZR (z + 1) - offset c) / W) with (1 - frac)
        by (rewrite plus_IZR; unfold frac, q; field; lra).
      unfold Math_abs. rewrite Rabs_pos_eq by (unfold frac; lra). ring. }
    rewrite E2. reflexivity.
  - apply Z.ltb_ge in Hnext.
    rewrite node_at_outside
      by (cbn [photoNodes write_opacity set_transform]; lia).
    reflexivity.
Qed.

End ContainerFacts.

Section ContainerFacts2.
Import PhotosContainer.
Local Open Scope R_scope.
Variable props : Props.

Lemma setEnd_installs_target (s : Spring R) (now e v : R) (t : option R) :
  almostZero v = false ->
  _endValue (setEnd s now e (Some v) t) = e
  /\ _m (setEnd s now e (Some v) t) = _m s
  /\ _k (setEnd s now e (Some v) t) = _k s
  /\ _c (setEnd s now e (Some v) t) = _c s.
Proof.
  intros Hv. unfold setEnd. cbv beta iota zeta. rewrite Hv, andb_false_r.
  destruct (_solution s) as [sol|]; cbv beta iota zeta.
  - rewrite Hv. cbv beta iota zeta. rewrite Hv, andb_false_r.
    repeat split.
  - cbn. repeat split.
Qed.

Lemma fade_photo_setting (i : R) (c : Container) :
  setting (fade_photo i c) = setting c
  /\ animation (fade_photo i c) = animation c
  /\ offset (fade_photo i c) = offset c.
Proof. unfold fade_photo. destruct (node_at i c); repeat split. Qed.

Lemma fade_loop_setting (fuel : nat) :
  forall (i b : R) (c : Container),
    setting (fade_loop fuel i b c) = setting c
    /\ animation (fade_loop fuel i b c) = animation c
    /\ offset (fade_loop fuel i b c) = offset c.
Proof.
  induction fuel as [|fuel IH]; intros i b c; cbn [fade_loop];
    [repeat split|].
  destruct (Rltb i b); [|repeat split].
  destruct (IH (i + 1) b (fade_photo i c)) as (H1 & H2 & H3).
  destruct (fade_photo_setting i c) as (H4 & H5 & H6).
  rewrite H1, H2, H3, H4, H5, H6. repeat split.
Qed.

Lemma updateContainer_setting (c : Container) :
  setting (updateContainer props c) = setting c
  /\ animation (updateContainer props c) = animation c
  /\ offset (updateContainer props c) = offset c.
Proof.
  unfold updateContainer.
  destruct (animateIndividualPhotos props); [|repeat split].
  match goal with |- context [fade_loop 3 ?i ?b ?d] =>
    destruct (fade_loop_setting 3 i b d) as (H1 & H2 & H3)
  end.
  rewrite H1, H2, H3. repeat split.
Qed.

Lemma cancel_model_same (w : World Container) : model (cancel w) = model w.
Proof. apply cancel_model. Qed.

Lemma processFrame_setting (w : World Container) :
  setting (model (processFrame (animation_client props) w))
  = setting (model w).
Proof.
  unfold processFrame. destruct (cancelled (handle w)); [reflexivity|].
  set (w1 := invoke OnFrame (onFrame (animation_client props)) w).
  assert (H1 : setting (model w1) = setting (model w)).
  { subst w1. rewrite invoke_model. cbn [onFrame animation_client fst].
    destruct (updateContainer_setting
                (set_offset (x (spring (model w)) (clock (model w)) None)
                   (model w))) as (H & _).
    rewrite H. reflexivity. }
  cbn [model_done animation_client].
  assert (Hfin : setting (model match onFinish (animation_client props) with
                                | Some f => invoke OnFinish f
                                              (set_model (model w1) w1)
                                | None => set_model (model w1) w1
                                end) = setting (model w)).
  { cbn [onFinish animation_client]. rewrite invoke_model. exact H1. }
  destruct (negb (done (spring (model w1)) (clock (model w1)) None)
            && negb (cancelled (handle (set_model (model w1) w1)))).
  - cbn. exact H1.
  - exact Hfin.
Qed.

Lemma update_swipe (idx v : R) (w : World Container) :
  almostZero v = false ->
  setting (model (update props (Some idx) (Some v) w))
  = (setEnd (spring (model w)) (clock (model w))
       (idx * viewport_width (model w)) (Some v) None,
     startOffset (model w), minOffset (model w), maxOffset (model w),
     photoNodes (model w),
     if negb (Reqb idx (selected props))
     then changes (model w) ++ [idx] else changes (model w),
     clock (model w), viewport_width (model w)).
Proof.
  intros Hv. unfold update.
  assert (Hf : falsy_arg (Some v) = false).
  { unfold falsy_arg, truthy. cbn [jeq lit_0 R_JSNumber].
    assert (v <> 0).
    { intros ->. rewrite almostZero_0 in Hv. discriminate. }
    rewrite Reqb_false by assumption. rewrite Reqb_true by reflexivity.
    reflexivity. }
  rewrite Hf, andb_false_r.
  set (c1 := set_spring _ (model w)).
  set (w1 := if animation c1 then cancel (set_model c1 w) else set_model c1 w).
  assert (Hm1 : model w1 = c1).
  { subst w1. destruct (animation c1); [rewrite cancel_model|]; reflexivity. }
  set (w2 := start_animation props w1).
  assert (H2 : setting (model w2) = setting c1).
  { subst w2. unfold start_animation. rewrite processFrame_setting.
    cbn [model]. rewrite Hm1. reflexivity. }
  unfold setting in *. cbn [model set_model set_animation call_onChange
    spring startOffset minOffset maxOffset photoNodes changes clock
    viewport_width] in *.
  injection H2 as E1 E2 E3 E4 E5 E6 E7 E8.
  destruct (negb (Reqb idx (selected props)));
    cbn [model set_model set_animation call_onChange
      spring startOffset minOffset maxOffset photoNodes changes clock
      viewport_width];
    rewrite ?E1, ?E2, ?E3, ?E4, ?E5, ?E6, ?E7, ?E8; reflexivity.
Qed.


Lemma update_swipe_none (v : R) (w : World Container) :
  almostZero v = false ->
  changes (model (update props None (Some v) w)) = changes (model w).
Proof.
  intros Hv. unfold update.
  destruct (Reqb _ _ && falsy_arg (Some v)); [reflexivity|].
  set (c1 := set_spring _ (model w)).
  set (w1 := if animation c1 then cancel (set_model c1 w) else set_model c1 w).
  assert (Hm1 : model w1 = c1).
  { subst w1. destruct (animation c1); [rewrite cancel_model|]; reflexivity. }
  pose proof (processFrame_setting
                {| handle := {| id := 0; cancelled := false |};
                   frames := frames w1; last_id := last_id w1;
                   model := model w1; calls := calls w1 |}) as H2.
  fold (start_animation props w1) in H2.
  unfold setting in H2. injection H2 as _ _ _ _ _ E6 _ _.
  cbn [model set_model set_animation changes]. rewrite E6.
  cbn [model]. rewrite Hm1. reflexivity.
Qed.

Lemma set_up_fixed (p : Props) (c : Container) :
  is_set_up p c -> setup p c = c.
Proof.
  intros (H1 & H2 & H3). destruct c. unfold setup. simpl in *.
  subst. reflexivity.
Qed.

Lemma set_model_same (w : World Container) : set_model (model w) w = w.
Proof. destruct w. reflexivity. Qed.

Lemma swipe_velocity_counts (velocity_x : R) :
  1 / 1000 <= swipeVelocityThreshold props ->
  swipeVelocityThreshold props < Rabs velocity_x ->
  almostZero (- velocity_x) = false.
Proof.
  intros Hthr Hv. destruct (almostZero (- velocity_x)) eqn:H; [|reflexivity].
  apply almostZero_iff in H. rewrite Rabs_Ropp in H. lra.
Qed.

Lemma onTouchEnd_swipe (delta_x velocity_x : R) (w : World Container) :
  swipeVelocityThreshold props < Rabs velocity_x ->
  onTouchEnd props delta_x velocity_x w
  = update props (Some (nextPhotoIndex velocity_x (model w)))
      (Some (- velocity_x))
      (set_model (set_spring (snap (spring (model w)) (clock (model w))
                                (offset (model w))) (model w)) w).
Proof.
  intros Hv. unfold onTouchEnd.
  rewrite (Rltb_true (a := swipeVelocityThreshold props)) by exact Hv.
  rewrite orb_true_r. reflexivity.
Qed.

(** A release faster than [swipeVelocityThreshold] sends the spring to the
    next photo, and the render that follows, with that photo selected, does
    not touch the animation: [update] returns at once. *)
Theorem swipe_survives_rerender (w : World Container)
    (delta_x velocity_x : R) (props' : Props) :
  1 / 1000 <= swipeVelocityThreshold props ->
  swipeVelocityThreshold props < Rabs velocity_x ->
  0 < viewport_width (model w) ->
  is_set_up props (model w) ->
  photos props' = photos props ->
  selected props' = nextPhotoIndex velocity_x (model w) ->
  endValue (spring (model (onTouchEnd props delta_x velocity_x w)))
  = nextPhotoIndex velocity_x (model w) * viewport_width (model w)
  /\ componentDidUpdate props' (onTouchEnd props delta_x velocity_x w)
     = onTouchEnd props delta_x velocity_x w.
Proof.
  intros Hthr Hv Hwidth (Hs1 & Hs2 & Hs3) Hphotos Hsel.
  pose proof (@swipe_velocity_counts velocity_x Hthr Hv) as Hnz.
  rewrite onTouchEnd_swipe by exact Hv.
  set (idx := nextPhotoIndex velocity_x (model w)) in *.
  match goal with |- context [update props _ _ ?w1] =>
    pose proof (@update_swipe idx (- velocity_x) w1 Hnz) as Hset;
    set (w' := update props (Some idx) (Some (- velocity_x)) w1) in *
  end.
  unfold setting in Hset.
  cbn [model set_model set_spring spring startOffset minOffset maxOffset
         photoNodes changes clock viewport_width] in Hset.
  injection Hset as E1 E2 E3 E4 E5 E6 E7 E8.
  match type of E1 with _ = setEnd ?s ?now ?e ?v ?t =>
    destruct (@setEnd_installs_target s now e (- velocity_x) t Hnz)
      as (He & _)
  end.
  assert (Hend : endValue (spring (model w'))
                 = idx * viewport_width (model w)).
  { unfold endValue. rewrite E1. exact He. }
  split; [exact Hend|].
  unfold componentDidUpdate.
  rewrite set_up_fixed.
  - rewrite set_model_same. unfold update.
    rewrite Hsel. fold idx. rewrite E8, Hend.
    rewrite Reqb_true by reflexivity. reflexivity.
  - unfold is_set_up. rewrite E3, E4, E5, E8, Hphotos.
    repeat split; assumption.
Qed.


(** *** From the release to rest *)

Lemma processFrame_animating (w : World Container) :
  frames w = [] ->
  cancelled (handle w) = false ->
  animating_to (spring (model w)) (processFrame (animation_client props) w).
Proof.
  intros Hf Hc. unfold animating_to.
  split; [|split].
  - pose proof (processFrame_setting w) as H. unfold setting in H.
    injection H as E1 _. exact E1.
  - unfold processFrame. rewrite Hc.
    rewrite invoke_quiet by reflexivity.
    cbn [model onFrame model_done animation_client fst].
    set (c1 := updateContainer props _).
    assert (Ht : transform c1 = - offset c1).
    { subst c1.
      match goal with |- context [updateContainer props ?d] =>
        destruct (updateContainer_offset props d) as [H1 H2]
      end.
      rewrite H1, H2. reflexivity. }
    destruct (negb (done (spring c1) (clock c1) None) && _).
    + cbn. exact Ht.
    + cbn [onFinish animation_client]. rewrite invoke_model. cbn. exact Ht.
  - unfold processFrame. rewrite Hc.
    rewrite invoke_quiet by reflexivity.
    cbn [model onFrame model_done animation_client fst].
    set (c0 := set_offset (x (spring (model w)) (clock (model w)) None)
                 (model w)).
    set (c1 := updateContainer props c0).
    destruct (updateContainer_setting c0) as (Hs1 & _ & Ho1).
    fold c1 in Hs1, Ho1. unfold setting in Hs1.
    injection Hs1 as E1 _ _ _ _ _ E7 _.
    cbn [spring clock set_offset c0] in E1, E7.
    destruct (done (spring c1) (clock c1) None) eqn:Hd.
    + right. cbn [negb andb onFinish animation_client]. split.
      * apply invoke_frames_nil. cbn. exact Hf.
      * rewrite invoke_model. cbn [fst set_model model offset set_animation].
        rewrite Ho1. cbn [offset set_offset c0].
        rewrite E1, E7 in Hd. unfold done in Hd.
        apply andb_true_iff in Hd. destruct Hd as [Hd _].
        apply almostEqual_iff in Hd. exact Hd.
    + left. cbn [negb andb]. cbn. rewrite Hc, Hf. cbn.
      split; [reflexivity|]. split; [discriminate | reflexivity].
Qed.

Lemma passive_step_animating (s : Spring R) (w : World Container)
    (e : Event Container) :
  passive e -> animating_to s w ->
  animating_to s (step (animation_client props) w e).
Proof.
  intros [-> | [t ->]] (Hs & Ht & Hrun).
  - cbn [step]. destruct Hrun as [(Hf & Hid & Hc) | (Hf & Hclose)].
    + rewrite Hf. cbn [runFrames]. rewrite Hf. cbn [existsb].
      rewrite Nat.eqb_refl. cbn [orb].
      rewrite <- Hs.
      change (spring (model w))
        with (spring (model (cancelAnimationFrame (id (handle w)) w))).
      apply processFrame_animating.
      * cbn. rewrite Hf. cbn. rewrite Nat.eqb_refl. reflexivity.
      * exact Hc.
    + rewrite Hf. cbn [runFrames]. split; [exact Hs|]. split; [exact Ht|].
      right. split; assumption.
  - cbn [step]. split; [exact Hs|]. split; [exact Ht|]. exact Hrun.
Qed.

Lemma passive_run_animating (s : Spring R) (es : list (Event Container)) :
  forall w : World Container,
    Forall passive es -> animating_to s w ->
    animating_to s (run (animation_client props) es w).
Proof.
  unfold run. induction es as [|e es IH]; intros w Hes Hw; cbn [fold_left].
  - exact Hw.
  - inversion Hes as [|e' es' He Hrest]; subst.
    apply IH; [exact Hrest|]. apply passive_step_animating; assumption.
Qed.

Lemma cancel_frames_one (c : Container) (w : World Container) :
  one_animation w ->
  animation c = animation (model w) ->
  frames (if animation c then cancel (set_model c w) else set_model c w)
  = [].
Proof.
  intros [Hf | (Ha & Hf & Hid)] Hc.
  - destruct (animation c); [|exact Hf].
    unfold cancel. cbn [set_model handle].
    destruct (negb (Nat.eqb (id (handle w)) 0)); cbn; rewrite Hf; reflexivity.
  - rewrite Hc, Ha. unfold cancel. cbn [set_model handle].
    apply Nat.eqb_neq in Hid. rewrite Hid. cbn. rewrite Hf. cbn.
    rewrite Nat.eqb_refl. reflexivity.
Qed.

Lemma truthy_velocity (v : R) :
  almostZero v = false -> falsy_arg (Some v) = false.
Proof.
  intros Hv. unfold falsy_arg, truthy. cbn [jeq lit_0 R_JSNumber].
  assert (v <> 0).
  { intros ->. rewrite almostZero_0 in Hv. discriminate. }
  rewrite Reqb_false by assumption. rewrite Reqb_true by reflexivity.
  reflexivity.
Qed.

Lemma update_animating (o v : option R) (w : World Container) :
  Reqb (endValue (spring (model w)))
    (match o with Some i => i | None => selected props end
     * viewport_width (model w)) && falsy_arg v = false ->
  one_animation w ->
  animating_to
    (setEnd (spring (model w)) (clock (model w))
       (match o with Some i => i | None => selected props end
        * viewport_width (model w)) v None)
    (update props o v w).
Proof.
  intros Hv Hone. unfold update. rewrite Hv.
  set (target := match o with Some i => i | None => selected props end
                 * viewport_width (model w)).
  set (c1 := set_spring _ (model w)).
  set (w1 := if animation c1 then cancel (set_model c1 w) else set_model c1 w).
  assert (Hm1 : model w1 = c1).
  { subst w1. destruct (animation c1); [rewrite cancel_model|]; reflexivity. }
  assert (Hf1 : frames w1 = []).
  { subst w1. apply cancel_frames_one; [exact Hone | reflexivity]. }
  set (w2 := start_animation props w1).
  assert (H2 : animating_to (spring c1) w2).
  { subst w2. unfold start_animation. rewrite <- Hm1.
    match goal with |- animating_to _ (processFrame _ ?w0) =>
      change (spring (model w1)) with (spring (model w0))
    end.
    apply processFrame_animating; [exact Hf1 | reflexivity]. }
  change (spring c1)
    with (setEnd (spring (model w)) (clock (model w)) target v None)
    in H2.
  destruct H2 as (Hs & Ht & Hrun).
  assert (H3 : animating_to
                 (setEnd (spring (model w)) (clock (model w)) target
                    v None)
                 (set_model (set_animation true (model w2)) w2)).
  { split; [exact Hs|]. split; [exact Ht|]. exact Hrun. }
  destruct o as [i|]; [|exact H3].
  destruct (negb (Reqb i (selected props))); [|exact H3].
  destruct H3 as (Hs3 & Ht3 & Hrun3).
  split; [exact Hs3|]. split; [exact Ht3|]. exact Hrun3.
Qed.

Lemma animating_rests (s0 : Spring R) (w0 : World Container) :
  comes_to_rest s0 -> animating_to s0 w0 ->
  rests_at props (_endValue s0) w0.
Proof.
  intros Hrest H0.
  destruct (comes_to_rest_done Hrest) as [T HT].
  exists T. intros es t Hes Ht.
  pose proof (passive_run_animating Hes H0) as H1.
  unfold run in *. rewrite fold_left_app.
  set (wp := fold_left (step (animation_client props)) es w0) in *.
  cbn [fold_left].
  assert (H2 : animating_to s0
                 (step (animation_client props) wp (Other (set_clock t)))).
  { apply passive_step_animating; [right; eexists; reflexivity | exact H1]. }
  set (wt := step (animation_client props) wp (Other (set_clock t))) in *.
  assert (Hclock : clock (model wt) = t) by reflexivity.
  clearbody wt.
  destruct H2 as (Hs & Htr & [(Hf & Hid & Hc) | (Hf & Hclose)]).
  - (* still animating: this frame is the last one *)
    cbn [step]. rewrite Hf. cbn [runFrames]. rewrite Hf. cbn [existsb].
    rewrite Nat.eqb_refl. cbn [orb].
    set (w1 := cancelAnimationFrame (id (handle wt)) wt).
    assert (Hf1 : frames w1 = []).
    { subst w1. cbn. rewrite Hf. cbn. rewrite Nat.eqb_refl. reflexivity. }
    assert (Hc1 : cancelled (handle w1) = false) by exact Hc.
    destruct (processFrame_animating w1 Hf1 Hc1) as (_ & Htr' & _).
    unfold processFrame in *. rewrite Hc1 in *.
    rewrite invoke_quiet in * by reflexivity.
    cbn [model onFrame model_done animation_client fst] in *.
    set (c0 := set_offset (x (spring (model w1)) (clock (model w1)) None)
                 (model w1)) in *.
    set (c1 := updateContainer props c0) in *.
    destruct (updateContainer_setting c0) as (Hs1 & _ & Ho1).
    fold c1 in Hs1, Ho1. unfold setting in Hs1.
    injection Hs1 as E1 _ _ _ _ _ E7 _.
    cbn [spring clock set_offset c0] in E1, E7.
    assert (Hd : done (spring c1) (clock c1) None = true).
    { rewrite E1, E7.
      change (spring (model w1)) with (spring (model wt)).
      change (clock (model w1)) with (clock (model wt)).
      rewrite Hs, Hclock. apply HT. exact Ht. }
    rewrite Hd in *. cbn [negb andb onFinish animation_client] in *.
    split; [apply invoke_frames_nil; cbn; exact Hf1|].
    split; [|exact Htr'].
    rewrite invoke_model. cbn [fst set_model model offset set_animation].
    rewrite Ho1. cbn [offset set_offset c0].
    rewrite E1, E7 in Hd. unfold done in Hd.
    apply andb_true_iff in Hd. destruct Hd as [Hd _].
    apply almostEqual_iff in Hd.
    change (spring (model w1)) with (spring (model wt)) in Hd |- *.
    rewrite Hs in Hd |- *. exact Hd.
  - (* the animation has ended before *)
    cbn [step]. rewrite Hf. cbn [runFrames].
    split; [exact Hf|]. split; [|exact Htr]. exact Hclose.
Qed.

Lemma update_rests (o : option R) (v : R) (w : World Container) :
  almostZero v = false ->
  one_animation w ->
  comes_to_rest (spring (model w)) ->
  rests_at props
    (match o with Some i => i | None => selected props end
     * viewport_width (model w))
    (update props o (Some v) w).
Proof.
  intros Hv Hone Hrest.
  set (target := match o with Some i => i | None => selected props end
                 * viewport_width (model w)).
  set (s0 := setEnd (spring (model w)) (clock (model w)) target (Some v)
               None).
  assert (Hend : _endValue s0 = target).
  { apply (@setEnd_installs_target (spring (model w)) (clock (model w))
             target v None Hv). }
  rewrite <- Hend. apply animating_rests.
  - apply (@apply_op_comes_to_rest (spring (model w))
             (OpSetEnd (clock (model w)) target (Some v) None));
      [exact I | exact Hrest].
  - apply update_animating; [|exact Hone].
    rewrite (@truthy_velocity v Hv). apply andb_false_r.
Qed.

(** After such a release, with a spring that is not critically damped, the
    carousel comes to rest on the chosen photo: there is a time from which
    the first frame to run, whatever frames ran before, leaves the carousel
    within [EPSILON] of the photo's position, written to the transform, and
    requests no further frame. *)
Theorem swipe_ends_at_rest (w : World Container) (delta_x velocity_x : R) :
  one_animation w ->
  0 < viewport_width (model w) ->
  1 / 1000 <= swipeVelocityThreshold props ->
  swipeVelocityThreshold props < Rabs velocity_x ->
  well_damped (_m (spring (model w))) (_k (spring (model w)))
    (_c (spring (model w))) ->
  rests_at props
    (nextPhotoIndex velocity_x (model w) * viewport_width (model w))
    (onTouchEnd props delta_x velocity_x w).
Proof.
  intros Hone Hwidth Hthr Hv Hwd.
  pose proof (@swipe_velocity_counts velocity_x Hthr Hv) as Hnz.
  rewrite onTouchEnd_swipe by exact Hv.
  set (w1 := set_model _ w).
  change (nextPhotoIndex velocity_x (model w) * viewport_width (model w))
    with (match Some (nextPhotoIndex velocity_x (model w)) with
          | Some i => i
          | None => selected props
          end * viewport_width (model w1)).
  apply update_rests.
  - exact Hnz.
  - exact Hone.
  - split; [exact Hwd | apply settling_rest].
Qed.

(** *** Indicating a boundary *)

(** [indicateLowerBoundary] and [indicateUpperBoundary] push the carousel
    and let it return: the spring keeps the selected photo as its end, the
    carousel comes to rest there, and [onChange] is not called. *)
Theorem boundary_indication_returns (w : World Container)
    (k c m : R) (ops : list (Op R)) :
  one_animation w ->
  spring (model w) = run_ops ops (constructor k c m) ->
  well_damped m k c ->
  Forall well_damped_op ops ->
  (1 / 1000
   <= Rabs (velocity (spring (model w)) (clock (model w))
            - indicateBoundaryVelocity props) ->
   rests_at props (selected props * viewport_width (model w))
     (indicateLowerBoundary props w)
   /\ changes (model (indicateLowerBoundary props w)) = changes (model w))
  /\ (1 / 1000
      <= Rabs (velocity (spring (model w)) (clock (model w))
               + indicateBoundaryVelocity props) ->
      rests_at props (selected props * viewport_width (model w))
        (indicateUpperBoundary props w)
      /\ changes (model (indicateUpperBoundary props w))
         = changes (model w)).
Proof.
  intros Hone Hspring Hwd Hops.
  assert (Hrest : comes_to_rest (spring (model w))).
  { rewrite Hspring. apply run_ops_comes_to_rest; [exact Hops|].
    split; [exact Hwd | reflexivity]. }
  assert (Hkick : forall v, 1 / 1000 <= Rabs v ->
            rests_at props (selected props * viewport_width (model w))
              (update props None (Some v) w)
            /\ changes (model (update props None (Some v) w))
               = changes (model w)).
  { intros v Hv.
    assert (Hnz : almostZero v = false).
    { destruct (almostZero v) eqn:H; [|reflexivity].
      apply almostZero_iff in H. lra. }
    split.
    - apply (@update_rests None v w Hnz Hone Hrest).
    - pose proof (@update_swipe_none v w Hnz) as E. exact E. }
  split; intros Hv; apply Hkick; exact Hv.
Qed.

End ContainerFacts2.

Section OneAnimation.
Import PhotosContainer.
Local Open Scope R_scope.

Lemma processFrame_pending (props : Props) (w : World Container) :
  frames w = [] ->
  frames (processFrame (animation_client props) w) = []
  \/ (frames (processFrame (animation_client props) w)
      = [id (handle (processFrame (animation_client props) w))]
      /\ id (handle (processFrame (animation_client props) w)) <> 0%nat
      /\ animation (model (processFrame (animation_client props) w))
         = animation (model w)).
Proof.
  intros Hf. unfold processFrame.
  destruct (cancelled (handle w)) eqn:Hc; [left; exact Hf|].
  rewrite invoke_quiet by reflexivity.
  cbn [model onFrame model_done animation_client fst].
  set (c1 := updateContainer props _).
  destruct (negb (done (spring c1) (clock c1) None)).
  - right. cbn. rewrite Hc, Hf. cbn.
    split; [reflexivity|]. split; [discriminate|].
    subst c1.
    match goal with |- animation (updateContainer props ?d) = _ =>
      destruct (updateContainer_setting props d) as (_ & Ha & _)
    end.
    exact Ha.
  - left. cbn [negb andb onFinish animation_client].
    apply invoke_frames_nil. cbn. exact Hf.
Qed.

Lemma update_one (props : Props) (o v : option R) (w : World Container) :
  one_animation w -> one_animation (update props o v w).
Proof.
  intros Hone. unfold update.
  destruct (Reqb _ _ && falsy_arg v); [exact Hone|].
  set (c1 := set_spring _ (model w)).
  set (w1 := if animation c1 then cancel (set_model c1 w) else set_model c1 w).
  assert (Hf1 : frames w1 = []).
  { subst w1. apply cancel_frames_one; [exact Hone | reflexivity]. }
  set (w2 := start_animation props w1).
  assert (H2 : frames w2 = []
               \/ (frames w2 = [id (handle w2)] /\ id (handle w2) <> 0%nat)).
  { subst w2. unfold start_animation.
    match goal with |- context [processFrame _ ?w0] =>
      destruct (@processFrame_pending props w0 Hf1) as [H | (H & H' & _)]
    end; [left; exact H | right; split; assumption]. }
  assert (H3 : one_animation (set_model (set_animation true (model w2)) w2)).
  { destruct H2 as [H | (H & H')]; [left; exact H|].
    right. split; [reflexivity|]. split; assumption. }
  destruct o as [o|]; [|exact H3].
  destruct (negb (Reqb o (selected props))); [|exact H3].
  destruct H3 as [H | (Ha & H & H')]; [left; exact H|].
  right. split; [exact Ha|]. split; assumption.
Qed.

Lemma frame_one (props : Props) (w : World Container) :
  one_animation w -> one_animation (step (animation_client props) w Frame).
Proof.
  intros [Hf | (Ha & Hf & Hid)]; cbn [step]; rewrite Hf; cbn [runFrames].
  - left. exact Hf.
  - rewrite Hf. cbn [existsb]. rewrite Nat.eqb_refl. cbn [orb].
    set (w0 := cancelAnimationFrame (id (handle w)) w).
    assert (Hf0 : frames w0 = []).
    { subst w0. cbn. rewrite Hf. cbn. rewrite Nat.eqb_refl. reflexivity. }
    destruct (@processFrame_pending props w0 Hf0) as [H | (H & H' & H'')].
    + left. exact H.
    + right. split; [rewrite H''; exact Ha|]. split; assumption.
Qed.

Lemma model_change_one (c : Container) (w : World Container) :
  animation c = animation (model w) ->
  one_animation w -> one_animation (set_model c w).
Proof.
  intros Hc [Hf | (Ha & Hf & Hid)]; [left; exact Hf|].
  right. split; [cbn; rewrite Hc; exact Ha|]. split; assumption.
Qed.

Lemma onTouchMove_animation (props : Props) (delta_x : R) (c : Container) :
  animation (onTouchMove props delta_x c) = animation c.
Proof.
  unfold onTouchMove.
  match goal with |- animation (updateContainer props ?d) = _ =>
    destruct (updateContainer_setting props d) as (_ & Ha & _)
  end.
  exact Ha.
Qed.

Lemma carousel_step_one (props : Props) (w : World Container) (g : Gesture) :
  one_animation w -> one_animation (carousel_step props w g).
Proof.
  intros Hone. destruct g; cbn [carousel_step].
  - (* TouchStart *)
    unfold onTouchStart.
    assert (Hf : frames (if animation (model w) then cancel w else w) = []).
    { pose proof (@cancel_frames_one (model w) w Hone eq_refl) as H.
      rewrite set_model_same in H. exact H. }
    left. exact Hf.
  - apply model_change_one; [apply onTouchMove_animation | exact Hone].
  - unfold onTouchEnd.
    destruct (Rltb _ _ || Rltb _ _); apply update_one;
      apply model_change_one; try reflexivity; exact Hone.
  - unfold componentDidUpdate. apply update_one.
    apply model_change_one; [reflexivity | exact Hone].
  - unfold onWindowResize. apply update_one.
    apply model_change_one; [reflexivity|].
    apply model_change_one; [reflexivity | exact Hone].
  - apply update_one. exact Hone.
  - apply update_one. exact Hone.
  - apply frame_one. exact Hone.
  - apply model_change_one; [reflexivity | exact Hone].
Qed.

Lemma carousel_run_one (es : list (Props * Gesture)) :
  forall w : World Container,
    one_animation w -> one_animation (carousel_run es w).
Proof.
  unfold carousel_run.
  induction es as [|[p g] es IH]; intros w Hone; cbn [fold_left].
  - exact Hone.
  - apply IH. apply carousel_step_one. exact Hone.
Qed.

Lemma componentDidMount_one (props : Props) (now width : R) (n : nat) :
  one_animation (componentDidMount props now width n).
Proof. unfold componentDidMount. apply update_one. left. reflexivity. Qed.

(** However the carousel is used after it has been mounted, at most one
    animation frame request is pending, it is the request of the handle
    [this.animation] holds, and none is pending while [this.animation] is
    unset. *)
Theorem one_animation_at_a_time (props : Props) (now width : R) (n : nat)
    (es : list (Props * Gesture)) :
  touch_ordered false (map snd es) = true ->
  (length (frames (carousel_run es (componentDidMount props now width n)))
   <= 1)%nat
  /\ (forall i,
        In i (frames (carousel_run es
                        (componentDidMount props now width n))) ->
        i = id (handle (carousel_run es
                          (componentDidMount props now width n))))
  /\ (animation (model (carousel_run es
                          (componentDidMount props now width n))) = false ->
      frames (carousel_run es (componentDidMount props now width n)) = []).
Proof.
  intros _.
  pose proof (carousel_run_one es (componentDidMount_one props now width n))
    as [Hf | (Ha & Hf & Hid)]; rewrite Hf.
  - split; [cbn; lia|]. split; [intros i []|reflexivity].
  - split; [cbn; lia|]. split.
    + intros i [<- | []]. reflexivity.
    + intros H. rewrite H in Ha. discriminate.
Qed.

End OneAnimation.

Section Reported.
Import PhotosContainer.
Local Open Scope R_scope.

Variable props : Props.

(** A drag that begins away from a boundary and crosses it does not meet
    the boundary position: just past the boundary the carousel stands
    [2 * overshootDamping] times the starting distance back inside. *)
Theorem drag_across_boundary_jumps (eta : R) (c : Container) :
  minOffset c <= maxOffset c ->
  0 < eta ->
  (minOffset c < startOffset c ->
   offset (onTouchMove props (startOffset c - minOffset c) c) = minOffset c
   /\ offset (onTouchMove props (startOffset c - minOffset c + eta) c)
      = minOffset c
        + 2 * overshootDamping props * (startOffset c - minOffset c)
        - (1 - overshootDamping props) * eta)
  /\ (startOffset c < maxOffset c ->
      offset (onTouchMove props (startOffset c - maxOffset c) c)
      = maxOffset c
      /\ offset (onTouchMove props (startOffset c - maxOffset c - eta) c)
         = maxOffset c
           - 2 * overshootDamping props * (maxOffset c - startOffset c)
           + (1 - overshootDamping props) * eta).
Proof.
  intros Hmm He. split; intros Hs; split; unfold onTouchMove.
  - rewrite Rltb_false by lra. rewrite Rltb_false by lra.
    match goal with |- offset (updateContainer props ?d) = _ =>
      destruct (updateContainer_offset props d) as [H1 _]; rewrite H1
    end.
    cbn [offset set_offset]. ring.
  - rewrite Rltb_true by lra.
    match goal with |- offset (updateContainer props ?d) = _ =>
      destruct (updateContainer_offset props d) as [H1 _]; rewrite H1
    end.
    cbn [offset set_offset]. ring.
  - rewrite Rltb_false by lra. rewrite Rltb_false by lra.
    match goal with |- offset (updateContainer props ?d) = _ =>
      destruct (updateContainer_offset props d) as [H1 _]; rewrite H1
    end.
    cbn [offset set_offset]. ring.
  - rewrite Rltb_false by lra. rewrite Rltb_true by lra.
    match goal with |- offset (updateContainer props ?d) = _ =>
      destruct (updateContainer_offset props d) as [H1 _]; rewrite H1
    end.
    cbn [offset set_offset]. ring.
Qed.

(** *** What the owner is told *)

Lemma update_setting (o v : option R) (w : World Container) :
  exists (s : Spring R) (ch : list R),
    setting (model (update props o v w))
    = (s, startOffset (model w), minOffset (model w), maxOffset (model w),
       photoNodes (model w), ch, clock (model w), viewport_width (model w))
    /\ (ch = changes (model w)
        \/ exists i, o = Some i /\ ch = changes (model w) ++ [i]).
Proof.
  unfold update.
  destruct (Reqb _ _ && falsy_arg v).
  { exists (spring (model w)), (changes (model w)).
    split; [reflexivity | left; reflexivity]. }
  set (c1 := set_spring _ (model w)).
  set (w1 := if animation c1 then cancel (set_model c1 w) else set_model c1 w).
  assert (Hm1 : model w1 = c1).
  { subst w1. destruct (animation c1); [rewrite cancel_model|]; reflexivity. }
  set (w2 := start_animation props w1).
  assert (H2 : setting (model w2) = setting c1).
  { subst w2. unfold start_animation. rewrite processFrame_setting.
    cbn [model]. rewrite Hm1. reflexivity. }
  unfold setting in *.
  injection H2 as E1 E2 E3 E4 E5 E6 E7 E8.
  cbn [c1 set_spring spring startOffset minOffset maxOffset photoNodes
         changes clock viewport_width] in E1, E2, E3, E4, E5, E6, E7, E8.
  destruct o as [o|].
  - destruct (negb (Reqb o (selected props)));
      cbn [model set_model set_animation call_onChange
             spring startOffset minOffset maxOffset photoNodes changes clock
             viewport_width];
      rewrite E2, E3, E4, E5, E6, E7, E8.
    + eexists _, _. split; [reflexivity|]. right. eexists.
      split; reflexivity.
    + eexists _, _. split; [reflexivity|]. left. reflexivity.
  - cbn [model set_model set_animation
           spring startOffset minOffset maxOffset photoNodes changes clock
           viewport_width].
    rewrite E2, E3, E4, E5, E6, E7, E8.
    eexists _, _. split; [reflexivity|]. left. reflexivity.
Qed.








End Reported.

Section SlowRelease.
Import PhotosContainer.
Local Open Scope R_scope.

Variable props : Props.

Lemma setEnd_snapped (s : Spring R) (now0 now e target : R) :
  (setEnd (snap s now0 e) now target None None = snap s now0 e
   /\ Rabs (e - target) < 1 / 1000)
  \/ _endValue (setEnd (snap s now0 e) now target None None) = target.
Proof.
  unfold setEnd.
  cbn [snap _endValue _solution sol_x sol_dx lit_0 R_JSNumber jeq].
  rewrite almostZero_0. cbn [andb].
  destruct (Reqb target e) eqn:Heq.
  - left. split; [reflexivity|].
    destruct (Req_dec_T target e) as [-> | Hne].
    + replace (e - e) with 0 by ring. rewrite Rabs_R0. lra.
    + rewrite (Reqb_false Hne) in Heq. discriminate.
  - cbv beta iota zeta. rewrite almostZero_0. cbv beta iota zeta.
    cbn [andb].
    change (jadd 0 e) with (0 + e).
    change (jsub (0 + e) target) with (0 + e - target).
    destruct (almostZero (0 + e - target)) eqn:Hz;
      rewrite ?almostZero_0; cbn [andb].
    + left. split; [reflexivity|].
      apply almostZero_iff in Hz.
      replace (e - target) with (0 + e - target) by ring. exact Hz.
    + right. reflexivity.
Qed.

Lemma snap_done (s : Spring R) (now0 e now : R) :
  x (snap s now0 e) now None = e
  /\ done (snap s now0 e) now None = true.
Proof.
  assert (Hx : x (snap s now0 e) now None = e).
  { unfold x. cbn [snap _solution _endValue sol_x].
    change (jadd e lit_0) with (e + 0). ring. }
  split; [exact Hx|].
  unfold done. rewrite Hx. cbn [time_or_now snap _endValue].
  rewrite almostEqual_refl.
  unfold dx. cbn [_solution sol_dx]. apply almostZero_0.
Qed.

Lemma snapped_step (e : R) (w : World Container) (ev : Event Container) :
  passive ev -> snapped_at e w ->
  snapped_at e (step (animation_client props) w ev)
  /\ (ev = Frame -> frames (step (animation_client props) w ev) = []).
Proof.
  intros [-> | [t ->]] ((s & now0 & Hs) & Ho & Ht & Hf).
  - cbn [step]. destruct Hf as [Hf | Hf]; rewrite Hf; cbn [runFrames].
    + split; [|intros _; exact Hf].
      split; [exists s, now0; exact Hs|]. split; [exact Ho|].
      split; [exact Ht | left; exact Hf].
    + rewrite Hf. cbn [existsb]. rewrite Nat.eqb_refl. cbn [orb].
      set (w0 := cancelAnimationFrame (id (handle w)) w).
      assert (Hf0 : frames w0 = []).
      { subst w0. cbn. rewrite Hf. cbn. rewrite Nat.eqb_refl. reflexivity. }
      unfold processFrame.
      destruct (cancelled (handle w0)) eqn:Hc.
      { split; [|intros _; exact Hf0].
        split; [exists s, now0; exact Hs|]. split; [exact Ho|].
        split; [exact Ht | left; exact Hf0]. }
      rewrite invoke_quiet by reflexivity.
      cbn [model onFrame model_done animation_client fst].
      change (model w0) with (model w). rewrite Hs.
      destruct (snap_done s now0 e (clock (model w))) as [Hx Hd].
      rewrite Hx.
      set (c0 := set_offset e (model w)).
      set (c1 := updateContainer props c0).
      destruct (updateContainer_setting props c0) as (Hs1 & _ & Ho1).
      destruct (updateContainer_offset props c0) as (_ & Ht1).
      fold c1 in Hs1, Ho1, Ht1. unfold setting in Hs1.
      injection Hs1 as E1 _ _ _ _ _ E7 _.
      cbn [spring clock offset set_offset c0] in E1, E7, Ho1, Ht1.
      rewrite E1, E7, Hs, Hd.
      cbn [negb andb onFinish animation_client].
      assert (Hfin : frames (invoke OnFinish
                               (fun c => (set_animation false c, false))
                               (set_model c1
                                  {| handle := handle w0;
                                     frames := frames w0;
                                     last_id := last_id w0;
                                     model := c1;
                                     calls := calls w0 ++ [OnFrame] |}))
                     = []).
      { apply invoke_frames_nil. cbn. exact Hf0. }
      split; [|intros _; exact Hfin].
      split.
      { exists s, now0. rewrite invoke_model.
        cbn [fst set_model model spring set_animation].
        rewrite E1. exact Hs. }
      split.
      { rewrite invoke_model. cbn [fst set_model model offset set_animation].
        exact Ho1. }
      split.
      { rewrite invoke_model.
        cbn [fst set_model model transform set_animation]. exact Ht1. }
      left. exact Hfin.
  - cbn [step]. split; [|discriminate].
    split; [exists s, now0; exact Hs|]. split; [exact Ho|].
    split; [exact Ht | exact Hf].
Qed.

Lemma snapped_run (e : R) (es : list (Event Container)) :
  forall w : World Container,
    Forall passive es -> snapped_at e w ->
    snapped_at e (run (animation_client props) es w).
Proof.
  unfold run. induction es as [|ev es IH]; intros w Hes Hw; cbn [fold_left].
  - exact Hw.
  - inversion Hes as [|ev' es' Hev Hrest]; subst.
    apply IH; [exact Hrest|]. apply snapped_step; assumption.
Qed.

Lemma snapped_rests (e target : R) (w : World Container) :
  snapped_at e w -> Rabs (e - target) < 1 / 1000 ->
  rests_at props target w.
Proof.
  intros Hw Hclose. exists 0. intros es t Hes _.
  pose proof (snapped_run Hes Hw) as H1.
  unfold run in *. rewrite fold_left_app.
  set (wp := fold_left (step (animation_client props)) es w) in *.
  cbn [fold_left].
  assert (H2 : snapped_at e
                 (step (animation_client props) wp (Other (set_clock t)))).
  { apply snapped_step; [right; eexists; reflexivity | exact H1]. }
  destruct (@snapped_step e _ Frame (or_introl eq_refl) H2)
    as ((_ & Ho & Ht & _) & Hf).
  split; [apply Hf; reflexivity|].
  rewrite Ho, Ht. split; [exact Hclose | reflexivity].
Qed.

Lemma processFrame_offset (w : World Container) :
  cancelled (handle w) = false ->
  offset (model (processFrame (animation_client props) w))
  = x (spring (model w)) (clock (model w)) None.
Proof.
  intros Hc. unfold processFrame. rewrite Hc.
  rewrite invoke_quiet by reflexivity.
  cbn [model onFrame model_done animation_client fst].
  set (c0 := set_offset (x (spring (model w)) (clock (model w)) None)
               (model w)).
  destruct (updateContainer_setting props c0) as (_ & _ & Ho1).
  destruct (negb (done (spring (updateContainer props c0))
                    (clock (updateContainer props c0)) None) && _).
  - cbn. exact Ho1.
  - cbn [onFinish animation_client]. rewrite invoke_model. cbn. exact Ho1.
Qed.

Lemma update_first_frame (o v : option R) (w : World Container) :
  Reqb (endValue (spring (model w)))
    (match o with Some i => i | None => selected props end
     * viewport_width (model w)) && falsy_arg v = false ->
  offset (model (update props o v w))
  = x (setEnd (spring (model w)) (clock (model w))
         (match o with Some i => i | None => selected props end
          * viewport_width (model w)) v None)
      (clock (model w)) None.
Proof.
  intros Hv. unfold update. rewrite Hv.
  set (c1 := set_spring _ (model w)).
  set (w1 := if animation c1 then cancel (set_model c1 w) else set_model c1 w).
  assert (Hm1 : model w1 = c1).
  { subst w1. destruct (animation c1); [rewrite cancel_model|]; reflexivity. }
  assert (H2 : offset (model (start_animation props w1))
               = x (spring c1) (clock c1) None).
  { unfold start_animation. rewrite processFrame_offset by reflexivity.
    cbn [model]. rewrite Hm1. reflexivity. }
  destruct o as [i|]; [destruct (negb (Reqb i (selected props)))|];
    cbn [model set_model set_animation call_onChange offset]; exact H2.
Qed.

Lemma onTouchEnd_slow (delta_x velocity_x : R) (w : World Container) :
  Rabs delta_x <= viewport_width (model w) / 2 ->
  Rabs velocity_x <= swipeVelocityThreshold props ->
  onTouchEnd props delta_x velocity_x w
  = update props None None
      (set_model (set_spring (snap (spring (model w)) (clock (model w))
                                (offset (model w))) (model w)) w).
Proof.
  intros Hd Hv. unfold onTouchEnd, Math_abs.
  rewrite (Rltb_false (a := viewport_width (model w) / 2)) by lra.
  rewrite (Rltb_false (a := swipeVelocityThreshold props)) by lra.
  reflexivity.
Qed.

(** A release that neither went half the viewport nor was faster than
    [swipeVelocityThreshold] returns the carousel to the selected photo, and
    [onChange] is not called. *)
Theorem slow_release_returns (w : World Container)
    (delta_x velocity_x : R) :
  one_animation w ->
  0 < viewport_width (model w) ->
  transform (model w) = - offset (model w) ->
  well_damped (_m (spring (model w))) (_k (spring (model w)))
    (_c (spring (model w))) ->
  Rabs delta_x <= viewport_width (model w) / 2 ->
  Rabs velocity_x <= swipeVelocityThreshold props ->
  rests_at props (selected props * viewport_width (model w))
    (onTouchEnd props delta_x velocity_x w)
  /\ changes (model (onTouchEnd props delta_x velocity_x w))
     = changes (model w).
Proof.
  intros Hone Hwidth Htr Hwd Hd Hv.
  rewrite onTouchEnd_slow by assumption.
  set (s1 := snap (spring (model w)) (clock (model w)) (offset (model w))).
  set (w1 := set_model (set_spring s1 (model w)) w).
  set (target := selected props * viewport_width (model w)).
  assert (Hone1 : one_animation w1) by exact Hone.
  assert (Hsnap1 : snapped_at (offset (model w)) w1).
  { split; [eexists _, _; reflexivity|]. split; [reflexivity|].
    split; [exact Htr|].
    destruct Hone as [Hf | (_ & Hf & _)]; [left | right]; exact Hf. }
  split.
  - destruct (Reqb (endValue (spring (model w1)))
                (selected props * viewport_width (model w1))
              && falsy_arg None) eqn:Hdont.
    + (* the carousel was released on the selected photo *)
      assert (E : update props None None w1 = w1).
      { unfold update. rewrite Hdont. reflexivity. }
      rewrite E. apply (snapped_rests (e := offset (model w))); [exact Hsnap1|].
      cbn [falsy_arg] in Hdont. rewrite andb_true_r in Hdont.
      change (endValue (spring (model w1))) with (offset (model w)) in Hdont.
      change (viewport_width (model w1)) with (viewport_width (model w))
        in Hdont.
      fold target in Hdont.
      destruct (Req_dec_T (offset (model w)) target) as [-> | Hne].
      * replace (target - target) with 0 by ring. rewrite Rabs_R0. lra.
      * rewrite (Reqb_false Hne) in Hdont. discriminate.
    + assert (Hanim : animating_to
                        (setEnd s1 (clock (model w)) target None None)
                        (update props None None w1))
        by exact (@update_animating props None None w1 Hdont Hone1).
      destruct (setEnd_snapped (spring (model w)) (clock (model w))
                  (clock (model w)) (offset (model w)) target)
        as [[Hsame Hclose] | Hend]; fold s1 in Hsame || fold s1 in Hend.
      * (* within [EPSILON] of it: the spring stays where it was snapped *)
        rewrite Hsame in Hanim.
        apply (snapped_rests (e := offset (model w))); [|exact Hclose].
        destruct Hanim as (Hs & Ht & Hrun).
        assert (Hoff : offset (model (update props None None w1))
                       = x (setEnd s1 (clock (model w)) target None None)
                           (clock (model w)) None)
          by exact (@update_first_frame None None w1 Hdont).
        rewrite Hsame in Hoff.
        unfold s1 in Hoff.
        rewrite (proj1 (snap_done (spring (model w)) (clock (model w))
                          (offset (model w)) (clock (model w)))) in Hoff.
        split; [eexists _, _; exact Hs|]. split; [exact Hoff|].
        split; [rewrite Ht, Hoff; reflexivity|].
        destruct Hrun as [(Hf & _) | (Hf & _)]; [right | left]; exact Hf.
      * rewrite <- Hend. apply animating_rests; [|exact Hanim].
        apply (@apply_op_comes_to_rest s1
                 (OpSetEnd (clock (model w1)) target None None)); [exact I|].
        split; [exact Hwd | apply settling_rest].
  - destruct (update_setting props None None w1) as (s & ch & Hset & Hch).
    unfold setting in Hset. injection Hset as _ _ _ _ _ E6 _ _.
    rewrite E6. destruct Hch as [-> | (i & Hi & _)]; [reflexivity|].
    discriminate Hi.
Qed.

End SlowRelease.

(** ** The carousel on concrete inputs *)

Section CarouselWitnesses.

Import PhotosContainer.

Local Open Scope R_scope.

Lemma componentDidMount_at_rest :
  componentDidMount (defaultProps 3) 0 320 0 = resting_world.
Proof.
  unfold componentDidMount, update.
  cbn [model setup spring endValue snap _endValue selected defaultProps
         viewport_width falsy_arg].
  rewrite Reqb_true by ring. cbn [andb].
  unfold resting_world, resting_carousel, resting_carousel_spring, setup.
  cbn [spring offset startOffset animation transform opacities changes
         clock viewport_width photos springConfig_springConstant
         springConfig_damping defaultProps INR].
  replace ((1 + 1 + 1 - 1) * 320) with 640 by ring.
  reflexivity.
Qed.

Lemma drag_follows_pointer_witness :
  offset (onTouchMove (defaultProps 3) (-100) resting_carousel)
  = startOffset resting_carousel - -100
  /\ transform (onTouchMove (defaultProps 3) (-100) resting_carousel)
     = - (startOffset resting_carousel - -100).
Proof.
  apply (@drag_follows_pointer (defaultProps 3) (-100) resting_carousel).
  unfold resting_carousel. cbn [minOffset startOffset maxOffset]. lra.
Defined.

Lemma drag_past_boundary_is_damped_witness :
  (startOffset resting_carousel = minOffset resting_carousel /\ 0 < 80
   -> offset (onTouchMove (defaultProps 3) 80 resting_carousel)
      = minOffset resting_carousel
        - (1 - overshootDamping (defaultProps 3)) * 80)
  /\ (startOffset resting_carousel = maxOffset resting_carousel /\ 80 < 0
      -> offset (onTouchMove (defaultProps 3) 80 resting_carousel)
         = maxOffset resting_carousel
           - (1 - overshootDamping (defaultProps 3)) * 80).
Proof.
  apply (@drag_past_boundary_is_damped (defaultProps 3) 80 resting_carousel).
  unfold resting_carousel. cbn [minOffset maxOffset]. lra.
Defined.

Lemma drag_across_boundary_jumps_witness :
  (minOffset (set_startOffset 320 resting_carousel)
   < startOffset (set_startOffset 320 resting_carousel) ->
   offset (onTouchMove (defaultProps 3)
             (startOffset (set_startOffset 320 resting_carousel)
              - minOffset (set_startOffset 320 resting_carousel))
             (set_startOffset 320 resting_carousel))
   = minOffset (set_startOffset 320 resting_carousel)
   /\ offset (onTouchMove (defaultProps 3)
                (startOffset (set_startOffset 320 resting_carousel)
                 - minOffset (set_startOffset 320 resting_carousel) + 1)
                (set_startOffset 320 resting_carousel))
      = minOffset (set_startOffset 320 resting_carousel)
        + 2 * overshootDamping (defaultProps 3)
          * (startOffset (set_startOffset 320 resting_carousel)
             - minOffset (set_startOffset 320 resting_carousel))
        - (1 - overshootDamping (defaultProps 3)) * 1)
  /\ (startOffset (set_startOffset 320 resting_carousel)
      < maxOffset (set_startOffset 320 resting_carousel) ->
      offset (onTouchMove (defaultProps 3)
                (startOffset (set_startOffset 320 resting_carousel)
                 - maxOffset (set_startOffset 320 resting_carousel))
                (set_startOffset 320 resting_carousel))
      = maxOffset (set_startOffset 320 resting_carousel)
      /\ offset (onTouchMove (defaultProps 3)
                   (startOffset (set_startOffset 320 resting_carousel)
                    - maxOffset (set_startOffset 320 resting_carousel) - 1)
                   (set_startOffset 320 resting_carousel))
         = maxOffset (set_startOffset 320 resting_carousel)
           - 2 * overshootDamping (defaultProps 3)
             * (maxOffset (set_startOffset 320 resting_carousel)
                - startOffset (set_startOffset 320 resting_carousel))
           + (1 - overshootDamping (defaultProps 3)) * 1).
Proof.
  apply (@drag_across_boundary_jumps (defaultProps 3) 1
           (set_startOffset 320 resting_carousel)).
  - unfold resting_carousel. cbn [minOffset maxOffset set_startOffset]. lra.
  - lra.
Defined.


Lemma photos_cross_fade_witness :
  exists (z : Z) (frac : R),
    z = Zfloor (offset (set_offset 100 resting_carousel)
                / viewport_width (set_offset 100 resting_carousel))
    /\ frac = offset (set_offset 100 resting_carousel)
              / viewport_width (set_offset 100 resting_carousel) - IZR z
    /\ 0 <= frac < 1
    /\ (0 <= z < Z.of_nat (photoNodes (set_offset 100 resting_carousel)))%Z
    /\ opacities (updateContainer (defaultProps 3)
                    (set_offset 100 resting_carousel))
       = (if (z + 1 <? Z.of_nat (photoNodes
                                   (set_offset 100 resting_carousel)))%Z
          then [(Z.to_nat (z + 1), frac)] else [])
         ++ (Z.to_nat z, 1 - frac)
            :: opacities (set_offset 100 resting_carousel).
Proof.
  apply (@photos_cross_fade (defaultProps 3)
           (set_offset 100 resting_carousel)).
  - reflexivity.
  - unfold resting_carousel. cbn [viewport_width set_offset]. lra.
  - unfold resting_carousel.
    cbn [offset photoNodes viewport_width set_offset INR]. lra.
Defined.

Lemma Rabs_minus_800 : 500 < Rabs (-800).
Proof. rewrite Rabs_left by lra. lra. Qed.

Lemma dragged_world_set_up : is_set_up (defaultProps 3) (model dragged_world).
Proof.
  unfold is_set_up, dragged_world, resting_world, resting_carousel.
  cbn [model set_model set_offset set_transform minOffset maxOffset
         photoNodes
         viewport_width photos defaultProps INR].
  repeat split. lra.
Qed.

Lemma swipe_survives_rerender_witness :
  endValue (spring (model (onTouchEnd (defaultProps 3) (-100) (-800)
                             dragged_world)))
  = nextPhotoIndex (-800) (model dragged_world)
    * viewport_width (model dragged_world)
  /\ componentDidUpdate props_after_swipe
       (onTouchEnd (defaultProps 3) (-100) (-800) dragged_world)
     = onTouchEnd (defaultProps 3) (-100) (-800) dragged_world.
Proof.
  apply (@swipe_survives_rerender (defaultProps 3) dragged_world
           (-100) (-800) props_after_swipe).
  - cbn [swipeVelocityThreshold defaultProps]. lra.
  - cbn [swipeVelocityThreshold defaultProps]. exact Rabs_minus_800.
  - unfold dragged_world, resting_world, resting_carousel.
    cbn [model set_model set_offset set_transform viewport_width]. lra.
  - exact dragged_world_set_up.
  - reflexivity.
  - reflexivity.
Defined.

Lemma swipe_ends_at_rest_witness :
  rests_at (defaultProps 3)
    (nextPhotoIndex (-800) (model dragged_world)
     * viewport_width (model dragged_world))
    (onTouchEnd (defaultProps 3) (-100) (-800) dragged_world).
Proof.
  apply (@swipe_ends_at_rest (defaultProps 3) dragged_world (-100) (-800)).
  - left. reflexivity.
  - unfold dragged_world, resting_world, resting_carousel.
    cbn [model set_model set_offset set_transform viewport_width]. lra.
  - cbn [swipeVelocityThreshold defaultProps]. lra.
  - cbn [swipeVelocityThreshold defaultProps]. exact Rabs_minus_800.
  - unfold dragged_world, resting_world, resting_carousel,
      resting_carousel_spring, well_damped.
    cbn [model set_model set_offset set_transform spring snap constructor
           _m _k _c]. lra.
Defined.

Lemma Rabs_minus_100 : Rabs (-100) <= 320 / 2.
Proof. rewrite Rabs_left by lra. lra. Qed.

Lemma Rabs_minus_200 : Rabs (-200) <= 500.
Proof. rewrite Rabs_left by lra. lra. Qed.

Lemma slow_release_returns_witness :
  rests_at (defaultProps 3)
    (selected (defaultProps 3) * viewport_width (model dragged_world))
    (onTouchEnd (defaultProps 3) (-100) (-200) dragged_world)
  /\ changes (model (onTouchEnd (defaultProps 3) (-100) (-200)
                       dragged_world))
     = changes (model dragged_world).
Proof.
  apply (@slow_release_returns (defaultProps 3) dragged_world (-100) (-200)).
  - left. reflexivity.
  - unfold dragged_world, resting_world, resting_carousel.
    cbn [model set_model set_offset set_transform viewport_width]. lra.
  - reflexivity.
  - unfold dragged_world, resting_world, resting_carousel,
      resting_carousel_spring, well_damped.
    cbn [model set_model set_offset set_transform spring snap constructor
           _m _k _c]. lra.
  - exact Rabs_minus_100.
  - exact Rabs_minus_200.
Defined.

Lemma boundary_indication_returns_witness :
  (1 / 1000
   <= Rabs (velocity (spring (model resting_world))
              (clock (model resting_world))
            - indicateBoundaryVelocity (defaultProps 3)) ->
   rests_at (defaultProps 3)
     (selected (defaultProps 3) * viewport_width (model resting_world))
     (indicateLowerBoundary (defaultProps 3) resting_world)
   /\ changes (model (indicateLowerBoundary (defaultProps 3) resting_world))
      = changes (model resting_world))
  /\ (1 / 1000
      <= Rabs (velocity (spring (model resting_world))
                 (clock (model resting_world))
               + indicateBoundaryVelocity (defaultProps 3)) ->
      rests_at (defaultProps 3)
        (selected (defaultProps 3) * viewport_width (model resting_world))
        (indicateUpperBoundary (defaultProps 3) resting_world)
      /\ changes (model (indicateUpperBoundary (defaultProps 3)
                           resting_world))
         = changes (model resting_world)).
Proof.
  apply (@boundary_indication_returns (defaultProps 3) resting_world
           230 30 1 [OpSnap 0 0]).
  - left. reflexivity.
  - reflexivity.
  - unfold well_damped. lra.
  - repeat constructor.
Defined.

Lemma one_animation_at_a_time_witness :
  (length (frames (carousel_run
                     [(defaultProps 3, TouchStart);
                      (defaultProps 3, TouchMove (-100));
                      (defaultProps 3, TouchEnd (-100) (-800));
                      (props_after_swipe, Rerender);
                      (props_after_swipe, AnimationFrame)]
                     (componentDidMount (defaultProps 3) 0 320 0)))
   <= 1)%nat
  /\ (forall i,
        In i (frames (carousel_run
                        [(defaultProps 3, TouchStart);
                         (defaultProps 3, TouchMove (-100));
                         (defaultProps 3, TouchEnd (-100) (-800));
                         (props_after_swipe, Rerender);
                         (props_after_swipe, AnimationFrame)]
                        (componentDidMount (defaultProps 3) 0 320 0))) ->
        i = id (handle (carousel_run
                          [(defaultProps 3, TouchStart);
                           (defaultProps 3, TouchMove (-100));
                           (defaultProps 3, TouchEnd (-100) (-800));
                           (props_after_swipe, Rerender);
                           (props_after_swipe, AnimationFrame)]
                          (componentDidMount (defaultProps 3) 0 320 0))))
  /\ (animation (model (carousel_run
                          [(defaultProps 3, TouchStart);
                           (defaultProps 3, TouchMove (-100));
                           (defaultProps 3, TouchEnd (-100) (-800));
                           (props_after_swipe, Rerender);
                           (props_after_swipe, AnimationFrame)]
                          (componentDidMount (defaultProps 3) 0 320 0)))
      = false ->
      frames (carousel_run
                [(defaultProps 3, TouchStart);
                 (defaultProps 3, TouchMove (-100));
                 (defaultProps 3, TouchEnd (-100) (-800));
                 (props_after_swipe, Rerender);
                 (props_after_swipe, AnimationFrame)]
                (componentDidMount (defaultProps 3) 0 320 0)) = []).
Proof.
  apply (@one_animation_at_a_time (defaultProps 3) 0 320 0
           [(defaultProps 3, TouchStart);
            (defaultProps 3, TouchMove (-100));
            (defaultProps 3, TouchEnd (-100) (-800));
            (props_after_swipe, Rerender);
            (props_after_swipe, AnimationFrame)]).
  reflexivity.
Defined.


End CarouselWitnesses.

(** * The gallery *)

Section GalleryFacts.
Import PhotoGallery.
Variable photos : nat.
Variable hasTouch : bool.

Lemma cancel_timer_selected (g : Gallery) :
  state_selected (cancelHideControlsTimer g) = state_selected g
  /\ state_hideControls (cancelHideControlsTimer g) = state_hideControls g
  /\ indicated (cancelHideControlsTimer g) = indicated g.
Proof.
  unfold cancelHideControlsTimer.
  destruct (hideControlsTimerID g) as [i|]; [destruct (negb _)|]; repeat split.
Qed.

Lemma start_timer_keeps (g : Gallery) :
  state_selected (startHideControlsTimer hasTouch g) = state_selected g
  /\ state_hideControls (startHideControlsTimer hasTouch g)
     = state_hideControls g
  /\ indicated (startHideControlsTimer hasTouch g) = indicated g.
Proof.
  unfold startHideControlsTimer.
  destruct (cancel_timer_selected g) as (H1 & H2 & H3).
  destruct (negb hasTouch); simpl; repeat split; assumption.
Qed.

Lemma handle_event_in_album (g : Gallery) (e : GalleryEvent) :
  change_in_album photos e -> in_album photos g ->
  in_album photos (handle_event photos hasTouch g e).
Proof.
  unfold in_album. intros He Hg.
  destruct e as [| | | |i|z]; simpl.
  - unfold onShowPrev, hasPrev.
    destruct (0 <? state_selected g)%Z eqn:H; simpl; [|exact Hg].
    apply Z.ltb_lt in H. lia.
  - unfold onShowNext, hasNext.
    destruct (state_selected g <? Z.of_nat photos - 1)%Z eqn:H; simpl;
      [|exact Hg].
    apply Z.ltb_lt in H. lia.
  - unfold showControls.
    destruct (start_timer_keeps (setState_hideControls false g)) as (H1 & _).
    rewrite H1. exact Hg.
  - unfold showControls.
    destruct (start_timer_keeps (setState_hideControls false g)) as (H1 & _).
    rewrite H1. exact Hg.
  - destruct (existsb _ _); simpl; exact Hg.
  - exact He.
Qed.

(** As long as the carousel reports indices of the album, the selected
    index stays one of the album, whatever keys are pressed. *)
Theorem selected_stays_in_album (n : nat) (es : list GalleryEvent) :
  1 <= photos ->
  Forall (change_in_album photos) es ->
  in_album photos (run_events photos hasTouch es (mount hasTouch n)).
Proof.
  intros Hn Hes.
  assert (H0 : in_album photos (mount hasTouch n)).
  { unfold in_album, mount.
    destruct (start_timer_keeps
                {| state_selected := 0; state_hideControls := false;
                   hideControlsTimerID := None; timers := [];
                   last_timer := n; indicated := [] |}) as (H1 & _).
    rewrite H1. simpl. lia. }
  revert H0. generalize (mount hasTouch n).
  unfold run_events. induction Hes as [|e es He Hes IH]; intros g Hg; simpl.
  - exact Hg.
  - apply IH. apply handle_event_in_album; assumption.
Qed.


Lemma rights_from (k : nat) :
  forall g : Gallery,
    (state_selected g <= Z.of_nat photos - 1)%Z ->
    state_selected (run_events photos hasTouch (repeat KeyRight k) g)
    = Z.min (state_selected g + Z.of_nat k) (Z.of_nat photos - 1)
    /\ indicated (run_events photos hasTouch (repeat KeyRight k) g)
       = indicated g
         ++ repeat Upper
              (Z.to_nat (state_selected g + Z.of_nat k
                         - (Z.of_nat photos - 1))).
Proof.
  unfold run_events.
  induction k as [|k IH]; intros g Hg.
  - simpl. rewrite Z.add_0_r, Z.min_l by lia. split; [reflexivity|].
    replace (Z.to_nat _) with 0 by lia. simpl. rewrite app_nil_r. reflexivity.
  - cbn [repeat fold_left handle_event]. unfold onShowNext, hasNext.
    destruct (state_selected g <? Z.of_nat photos - 1)%Z eqn:H.
    + apply Z.ltb_lt in H.
      destruct (IH (setState_selected (state_selected g + 1) g)) as [H1 H2];
        [cbn [state_selected setState_selected]; lia|].
      rewrite H1, H2. cbn [state_selected indicated setState_selected].
      split; [f_equal; lia|].
      do 2 f_equal. lia.
    + apply Z.ltb_ge in H.
      destruct (IH (indicate Upper g)) as [H1 H2];
        [cbn [state_selected indicate]; lia|].
      rewrite H1, H2. cbn [state_selected indicated indicate].
      split; [lia|].
      rewrite <- app_assoc. f_equal.
      replace (Z.to_nat (state_selected g + Z.of_nat (S k)
                         - (Z.of_nat photos - 1)))
        with (S (Z.to_nat (state_selected g + Z.of_nat k
                           - (Z.of_nat photos - 1)))) by lia.
      reflexivity.
Qed.

(** Pressing the right key [k] times after mounting selects photo
    [min k (photos.length - 1)]; every press beyond the last photo changes
    nothing and asks the carousel to indicate its upper boundary. *)
Theorem right_key_stops_at_last_photo (n k : nat) :
  1 <= photos ->
  state_selected (run_events photos hasTouch (repeat KeyRight k)
                    (mount hasTouch n))
  = Z.min (Z.of_nat k) (Z.of_nat photos - 1)
  /\ indicated (run_events photos hasTouch (repeat KeyRight k)
                 (mount hasTouch n))
     = repeat Upper (k - (photos - 1)).
Proof.
  intros Hn.
  destruct (start_timer_keeps
              {| state_selected := 0; state_hideControls := false;
                 hideControlsTimerID := None; timers := [];
                 last_timer := n; indicated := [] |}) as (H1 & _ & H3).
  fold (mount hasTouch n) in H1, H3. simpl in H1, H3.
  destruct (@rights_from k (mount hasTouch n)) as [Hs Hi]; [lia|].
  rewrite Hs, Hi, H1, H3. simpl. split; [reflexivity|].
  f_equal. lia.
Qed.

Lemma cancel_timer_clears (g : Gallery) :
  one_timer g -> timers (cancelHideControlsTimer g) = [].
Proof.
  intros [Ht | (i & Ht & Hid & Hi)]; unfold cancelHideControlsTimer.
  - destruct (hideControlsTimerID g) as [j|]; [destruct (negb _)|];
      simpl; rewrite ?Ht; reflexivity.
  - rewrite Hid. apply Nat.eqb_neq in Hi. rewrite Hi. simpl.
    rewrite Ht. simpl. rewrite Nat.eqb_refl. reflexivity.
Qed.

Lemma start_timer_one (g : Gallery) :
  one_timer g -> one_timer (startHideControlsTimer hasTouch g).
Proof.
  intros Hg. unfold startHideControlsTimer.
  pose proof (cancel_timer_clears Hg) as Hc.
  destruct (negb hasTouch).
  - right. eexists. simpl. rewrite Hc. repeat split. discriminate.
  - left. exact Hc.
Qed.

Lemma handle_event_one_timer (g : Gallery) (e : GalleryEvent) :
  one_timer g -> one_timer (handle_event photos hasTouch g e).
Proof.
  intros Hg. destruct e as [| | | |i|z]; simpl.
  - unfold onShowPrev. destruct (hasPrev g); exact Hg.
  - unfold onShowNext. destruct (hasNext photos g); exact Hg.
  - apply start_timer_one. exact Hg.
  - apply start_timer_one. exact Hg.
  - destruct (existsb (Nat.eqb i) (timers g)) eqn:Hex; [|exact Hg].
    left. simpl.
    destruct Hg as [Ht | (j & Ht & _)]; rewrite Ht in *; simpl in *.
    + reflexivity.
    + rewrite orb_false_r in Hex. rewrite Hex. reflexivity.
  - exact Hg.
Qed.

Lemma run_events_one_timer (es : list GalleryEvent) :
  forall g, one_timer g -> one_timer (run_events photos hasTouch es g).
Proof.
  unfold run_events. induction es as [|e es IH]; intros g Hg; simpl.
  - exact Hg.
  - apply IH. apply handle_event_one_timer. exact Hg.
Qed.

Lemma mount_one_timer (n : nat) : one_timer (mount hasTouch n).
Proof. apply start_timer_one. left. reflexivity. Qed.

(** At most one timeout of the gallery is pending at any time, and
    [cancelHideControlsTimer] withdraws it. *)
Theorem one_hide_timer_at_most (n : nat) (es : list GalleryEvent) :
  length (timers (run_events photos hasTouch es (mount hasTouch n))) <= 1
  /\ timers (cancelHideControlsTimer
              (run_events photos hasTouch es (mount hasTouch n))) = [].
Proof.
  pose proof (run_events_one_timer es (mount_one_timer n)) as Hg. split.
  - destruct Hg as [Ht | (i & Ht & _)]; rewrite Ht; simpl; lia.
  - apply cancel_timer_clears. exact Hg.
Qed.

(** Without touch, a mouse move shows the controls and leaves exactly one
    timeout pending; when it fires, the controls are hidden and no timeout
    is left. *)
Theorem controls_hide_after_last_activity (n : nat) (es : list GalleryEvent) :
  hasTouch = false ->
  exists i,
    timers (run_events photos hasTouch (es ++ [MouseMove])
              (mount hasTouch n)) = [i]
    /\ state_hideControls (run_events photos hasTouch (es ++ [MouseMove])
                             (mount hasTouch n)) = false
    /\ state_hideControls
         (run_events photos hasTouch (es ++ [MouseMove; TimerFires i])
            (mount hasTouch n)) = true
    /\ timers (run_events photos hasTouch (es ++ [MouseMove; TimerFires i])
                 (mount hasTouch n)) = [].
Proof.
  intros Hno.
  pose proof (run_events_one_timer es (mount_one_timer n)) as Hg.
  set (g := run_events photos hasTouch es (mount hasTouch n)) in *.
  set (i := S (last_timer (cancelHideControlsTimer
                             (setState_hideControls false g)))).
  assert (Hshow : timers (showControls hasTouch g) = [i]
                  /\ state_hideControls (showControls hasTouch g) = false).
  { unfold showControls, startHideControlsTimer. rewrite Hno. cbn [negb].
    cbn [timers state_hideControls].
    rewrite (@cancel_timer_clears (setState_hideControls false g)) by exact Hg.
    split; [reflexivity|].
    apply (cancel_timer_selected (setState_hideControls false g)). }
  destruct Hshow as [Ht Hh].
  assert (E1 : run_events photos hasTouch (es ++ [MouseMove])
                 (mount hasTouch n) = showControls hasTouch g).
  { unfold run_events. rewrite fold_left_app. reflexivity. }
  assert (E2 : run_events photos hasTouch (es ++ [MouseMove; TimerFires i])
                 (mount hasTouch n)
               = hideControls (clearInterval i (showControls hasTouch g))).
  { unfold run_events. rewrite fold_left_app.
    cbn [fold_left handle_event].
    fold (run_events photos hasTouch es (mount hasTouch n)). fold g.
    rewrite Ht. cbn [existsb]. rewrite Nat.eqb_refl. reflexivity. }
  exists i. rewrite E1, E2. repeat split; try assumption.
  cbn [timers hideControls setState_hideControls clearInterval].
  rewrite Ht. cbn [filter]. rewrite Nat.eqb_refl. reflexivity.
Qed.

(** With touch, no timeout is ever set and the controls are never
    hidden. *)
Theorem touch_devices_keep_controls (n : nat) (es : list GalleryEvent) :
  hasTouch = true ->
  state_hideControls (run_events photos hasTouch es (mount hasTouch n))
  = false
  /\ timers (run_events photos hasTouch es (mount hasTouch n)) = [].
Proof.
  intros Htouch.
  assert (Hstart : forall g, timers g = [] ->
            timers (startHideControlsTimer hasTouch g) = []).
  { intros g Ht. unfold startHideControlsTimer. rewrite Htouch. simpl.
    apply cancel_timer_clears. left. exact Ht. }
  assert (H0 : state_hideControls (mount hasTouch n) = false
               /\ timers (mount hasTouch n) = []).
  { split; [apply start_timer_keeps | apply Hstart; reflexivity]. }
  revert H0. generalize (mount hasTouch n). unfold run_events.
  induction es as [|e es IH]; intros g [Hh Ht]; simpl; [split; assumption|].
  apply IH. destruct e as [| | | |i|z]; simpl.
  - unfold onShowPrev. destruct (hasPrev g); split; assumption.
  - unfold onShowNext. destruct (hasNext photos g); split; assumption.
  - split; [apply start_timer_keeps | apply Hstart; exact Ht].
  - split; [apply start_timer_keeps | apply Hstart; exact Ht].
  - rewrite Ht. simpl. split; assumption.
  - split; assumption.
Qed.

End GalleryFacts.

Section GalleryWitnesses.

Import PhotoGallery.

Lemma selected_stays_in_album_witness :
  in_album 3 (run_events 3 false
                [KeyRight; KeyRight; KeyRight; Change 1; KeyLeft; KeyLeft]
                (mount false 0)).
Proof.
  apply (@selected_stays_in_album 3 false 0
           [KeyRight; KeyRight; KeyRight; Change 1; KeyLeft; KeyLeft]).
  - lia.
  - repeat constructor; simpl; lia.
Defined.


Lemma right_key_stops_at_last_photo_witness :
  state_selected (run_events 3 false (repeat KeyRight 5) (mount false 0))
  = Z.min (Z.of_nat 5) (Z.of_nat 3 - 1)
  /\ indicated (run_events 3 false (repeat KeyRight 5) (mount false 0))
     = repeat Upper (5 - (3 - 1)).
Proof.
  apply (@right_key_stops_at_last_photo 3 false 0 5). lia.
Defined.

Lemma controls_hide_after_last_activity_witness :
  exists i,
    timers (run_events 3 false ([KeyRight; Click] ++ [MouseMove])
              (mount false 0)) = [i]
    /\ state_hideControls
         (run_events 3 false ([KeyRight; Click] ++ [MouseMove])
            (mount false 0)) = false
    /\ state_hideControls
         (run_events 3 false ([KeyRight; Click] ++ [MouseMove; TimerFires i])
            (mount false 0)) = true
    /\ timers (run_events 3 false
                 ([KeyRight; Click] ++ [MouseMove; TimerFires i])
                 (mount false 0)) = [].
Proof.
  apply (@controls_hide_after_last_activity 3 false 0 [KeyRight; Click]).
  reflexivity.
Defined.

Lemma touch_devices_keep_controls_witness :
  state_hideControls (run_events 3 true [Click; TimerFires 1; MouseMove]
                        (mount true 0)) = false
  /\ timers (run_events 3 true [Click; TimerFires 1; MouseMove]
               (mount true 0)) = [].
Proof.
  apply (@touch_devices_keep_controls 3 true 0
           [Click; TimerFires 1; MouseMove]).
  reflexivity.
Defined.

End GalleryWitnesses.
